(** * GroupTherapy web app: storage layer and authentication service

    A shallow embedding of [server/storage.ts] (class [MemStorage]),
    [server/db-storage.ts] (class [DatabaseStorage]) and [server/auth.ts]
    (sessions, login rate limiting, credential validation), followed by
    the properties of these functions that the specification states.

    Conventions of the embedding:
    - a [Date] is its epoch value in milliseconds, an integer;
    - a function that reads the clock ([Date.now()], [new Date()], the
      [now()] column default) takes the reading as its argument [now];
      one call is evaluated at one reading;
    - a function that draws a random identifier ([randomUUID()],
      [Math.random()]) takes the drawn value as an argument;
    - an [async] function is a state transformer that returns either a
      value or a thrown error, together with the store it leaves behind;
    - [T | undefined] is [option T], [None] being [undefined]. *)

From Stdlib Require Import ZArith List Bool Ascii String Lia.
From stdpp Require Import base option list strings pretty gmap.

Local Open Scope Z_scope.


(** ** JavaScript values and objects *)

(** The field values that occur in the records of the content tables. *)
Inductive JsVal : Type :=
  | JUndefined
  | JNull
  | JBool (b : bool)
  | JNum (n : Z)
  | JStr (s : string)
  | JDate (ms : Z)
  | JArr (items : list string).

Global Instance JsVal_eq_dec : EqDecision JsVal.
Proof. solve_decision. Defined.

(** A content record (Release, Event, Post, ...) is a flat object;
    [Partial<Release>] is an object holding some of the fields. *)
Abbreviation Obj := (gmap string JsVal).

(** [o.k]: reading a missing property gives [undefined]. *)
Definition prop (o : Obj) (k : string) : JsVal := default JUndefined (o !! k).

(** [{...existing, ...update}]: the fields of [update] win. *)
Definition spread (existing update : Obj) : Obj := update ∪ existing.

(** The properties of [o] whose value is not [undefined]. This is what
    drizzle's [values(o)] and [set(o)] take from an object: a property
    that is [undefined] is treated as one that is not given. *)
Definition defined (o : Obj) : Obj := filter (λ kv, kv.2 ≠ JUndefined) o.

(** Truthiness of a field value, as in [a => a.featured]. *)
Definition truthy_value (v : JsVal) : bool :=
  match v with
  | JUndefined | JNull => false
  | JBool b => b
  | JNum n => negb (n =? 0)
  | JStr s => negb (String.eqb s "")
  | JDate _ | JArr _ => true
  end.

(** Two values of one kind: both [null], both booleans, both numbers,
    both strings, both dates or both arrays. A column of a table holds
    values of one kind, or [null]. *)
Definition same_kind (a b : JsVal) : bool :=
  match a, b with
  | JNull, JNull | JBool _, JBool _ | JNum _, JNum _ | JStr _, JStr _
  | JDate _, JDate _ | JArr _, JArr _ => true
  | _, _ => false
  end.

(** [v] is a value for the field [k] of the record [r]: [r] has the
    field, with a value of the kind of [v]. *)
Definition fits (r : Obj) (k : string) (v : JsVal) : bool :=
  from_option (same_kind v) false (r !! k).

(** storage.ts, line 6:
    [function nullify(value) { return value === undefined ? null : value; }] *)
Definition nullify (value : JsVal) : JsVal :=
  match value with
  | JUndefined => JNull
  | _ => value
  end.

(** ** Results of an [async] call *)

Inductive outcome (A : Type) : Type :=
  | Returned (v : A)
  | Thrown (msg : string).
Arguments Returned {A} v.
Arguments Thrown {A} msg.

Definition M (S A : Type) : Type := S → outcome A * S.

Definition ret {S A} (v : A) : M S A := λ st, (Returned v, st).
Definition throw {S A} (msg : string) : M S A := λ st, (Thrown msg, st).
Definition bind {S A B} (m : M S A) (k : A → M S B) : M S B :=
  λ st, match m st with
        | (Returned v, st') => k v st'
        | (Thrown msg, st') => (Thrown msg, st')
        end.
Definition gets {S A} (f : S → A) : M S A := λ st, (Returned (f st), st).
Definition modify {S} (f : S → S) : M S unit := λ st, (Returned tt, f st).

Notation "x <- m ;; k" := (bind m (λ x, k))
  (at level 100, m at next level, right associativity).
Notation "m ;;; k" := (bind m (λ _, k))
  (at level 100, right associativity).

(** ** A JavaScript [Map] with string keys

    Entries are kept in insertion order, which is the order of
    [Array.from(m.values())]. *)
Abbreviation JsMap V := (list (string * V)).

Definition Map_get {V} (k : string) (m : JsMap V) : option V :=
  snd <$> List.find (λ e, bool_decide (e.1 = k)) m.

Fixpoint Map_set {V} (k : string) (v : V) (m : JsMap V) : JsMap V :=
  match m with
  | [] => [(k, v)]
  | e :: m' => if bool_decide (e.1 = k) then (k, v) :: m' else e :: Map_set k v m'
  end.

Definition Map_delete {V} (k : string) (m : JsMap V) : JsMap V :=
  List.filter (λ e, negb (bool_decide (e.1 = k))) m.

Definition Map_values {V} (m : JsMap V) : list V := snd <$> m.

Definition Map_size {V} (m : JsMap V) : Z := Z.of_nat (length m).

(** ** Records of shared/schema *)

Record AdminUser := {
  au_id : Z;
  au_username : string;
  au_passwordHash : string;
  au_role : string;
  au_isActive : bool;
  au_lastLoginAt : option Z;
  au_createdAt : Z;
  au_updatedAt : Z
}.

Record InsertAdminUser := {
  iau_username : string;
  iau_passwordHash : string;
  iau_role : option string;
  iau_isActive : option bool
}.

Record LoginAttempt := {
  la_id : Z;
  la_username : string;
  la_ipAddress : option string;
  la_successful : bool;
  la_attemptedAt : Z
}.

Record InsertLoginAttempt := {
  ila_username : string;
  ila_ipAddress : option string;
  ila_successful : bool
}.

Record Session := {
  s_id : string;
  s_username : string;
  s_expiresAt : Z
}.

(** The eight content tables of the storage contract. *)
Inductive Entity : Type :=
  | Release | Event | Post | Contact | Artist | RadioShow | Playlist | Video.

Global Instance Entity_eq_dec : EqDecision Entity.
Proof. solve_decision. Defined.

(** The message of the error that [MemStorage] throws from [updateX]. *)
Definition not_found_message (e : Entity) : string :=
  match e with
  | Release => "Release not found"
  | Event => "Event not found"
  | Post => "Post not found"
  | Contact => "Contact not found"
  | Artist => "Artist not found"
  | RadioShow => "Radio show not found"
  | Playlist => "Playlist not found"
  | Video => "Video not found"
  end.

(** ** The storage contract, [interface IStorage]

    The five methods of a content table are indexed by the table:
    [getAll Release] is [getAllReleases], [update Event] is
    [updateEvent], and so on. [update] is declared to return the record;
    its result is modelled as [option Obj] because an implementation can
    let [undefined] through that type. *)
Class IStorage (S : Type) := {
  getAdminUserByUsername : string → M S (option AdminUser);
  createAdminUser : InsertAdminUser → Z → M S AdminUser;
  updateAdminLastLogin : string → Z → M S unit;
  recordLoginAttempt : InsertLoginAttempt → Z → M S LoginAttempt;
  getRecentLoginAttempts : string → Z → Z → M S (list LoginAttempt);
  getAll : Entity → M S (list Obj);
  getById : Entity → string → M S (option Obj);
  create : Entity → Obj → string → Z → M S Obj;
  update : Entity → string → Obj → M S (option Obj);
  delete : Entity → string → M S unit
}.

(** ** [class MemStorage implements IStorage] (storage.ts, lines 84-508) *)
Module MemStorage.

Record t := {
  adminUsers : JsMap AdminUser;
  loginAttempts : list LoginAttempt;
  releases : JsMap Obj;
  events : JsMap Obj;
  posts : JsMap Obj;
  contacts : JsMap Obj;
  artists : JsMap Obj;
  radioShows : JsMap Obj;
  playlists : JsMap Obj;
  videos : JsMap Obj
}.

(** The fields as the constructor initialises them, before seeding. *)
Definition empty : t :=
  {| adminUsers := []; loginAttempts := []; releases := []; events := [];
     posts := []; contacts := []; artists := []; radioShows := [];
     playlists := []; videos := [] |}.

Definition set_adminUsers (f : JsMap AdminUser → JsMap AdminUser) (st : t) : t :=
  {| adminUsers := f (adminUsers st); loginAttempts := loginAttempts st;
     releases := releases st; events := events st; posts := posts st;
     contacts := contacts st; artists := artists st;
     radioShows := radioShows st; playlists := playlists st;
     videos := videos st |}.

Definition set_loginAttempts (f : list LoginAttempt → list LoginAttempt) (st : t) : t :=
  {| adminUsers := adminUsers st; loginAttempts := f (loginAttempts st);
     releases := releases st; events := events st; posts := posts st;
     contacts := contacts st; artists := artists st;
     radioShows := radioShows st; playlists := playlists st;
     videos := videos st |}.

(** The map that holds the records of a content table. *)
Definition coll (e : Entity) (st : t) : JsMap Obj :=
  match e with
  | Release => releases st
  | Event => events st
  | Post => posts st
  | Contact => contacts st
  | Artist => artists st
  | RadioShow => radioShows st
  | Playlist => playlists st
  | Video => videos st
  end.

Definition set_coll (e : Entity) (f : JsMap Obj → JsMap Obj) (st : t) : t :=
  let on e' m := if decide (e' = e) then f m else m in
  {| adminUsers := adminUsers st; loginAttempts := loginAttempts st;
     releases := on Release (releases st); events := on Event (events st);
     posts := on Post (posts st); contacts := on Contact (contacts st);
     artists := on Artist (artists st);
     radioShows := on RadioShow (radioShows st);
     playlists := on Playlist (playlists st);
     videos := on Video (videos st) |}.

(** *** Admin users and login attempts *)

Definition getAdminUserByUsername (username : string) : M t (option AdminUser) :=
  gets (λ st, List.find (λ user, bool_decide (au_username user = username))
                        (Map_values (adminUsers st))).

Definition createAdminUser (insertUser : InsertAdminUser) (now : Z) : M t AdminUser :=
  size <- gets (λ st, Map_size (adminUsers st));;
  let id := size + 1 in
  let adminUser :=
    {| au_id := id;
       au_username := iau_username insertUser;
       au_passwordHash := iau_passwordHash insertUser;
       au_isActive := default true (iau_isActive insertUser);
       au_role := default "admin" (iau_role insertUser);
       au_lastLoginAt := None;
       au_createdAt := now;
       au_updatedAt := now |} in
  modify (set_adminUsers (Map_set (au_username adminUser) adminUser));;;
  ret adminUser.

Definition updateAdminLastLogin (username : string) (now : Z) : M t unit :=
  user <- getAdminUserByUsername username;;
  match user with
  | Some user =>
      let user' :=
        {| au_id := au_id user; au_username := au_username user;
           au_passwordHash := au_passwordHash user; au_role := au_role user;
           au_isActive := au_isActive user;
           au_lastLoginAt := Some now;
           au_createdAt := au_createdAt user;
           au_updatedAt := now |} in
      modify (set_adminUsers (Map_set username user'))
  | None => ret tt
  end.

Definition recordLoginAttempt (insertAttempt : InsertLoginAttempt) (now : Z)
  : M t LoginAttempt :=
  len <- gets (λ st, Z.of_nat (length (loginAttempts st)));;
  let attempt :=
    {| la_username := ila_username insertAttempt;
       la_ipAddress := ila_ipAddress insertAttempt;
       la_successful := ila_successful insertAttempt;
       la_id := len + 1;
       la_attemptedAt := now |} in
  modify (set_loginAttempts (λ l, l ++ [attempt]));;;
  ret attempt.

Definition getRecentLoginAttempts (username : string) (minutes now : Z)
  : M t (list LoginAttempt) :=
  let cutoffTime := now - minutes * 60 * 1000 in
  gets (λ st, List.filter
                (λ attempt, bool_decide (la_username attempt = username)
                            && (cutoffTime <=? la_attemptedAt attempt))
                (loginAttempts st)).

(** *** Content tables *)

Definition getAll (e : Entity) : M t (list Obj) :=
  gets (λ st, Map_values (coll e st)).

Definition getById (e : Entity) (id : string) : M t (option Obj) :=
  gets (λ st, Map_get id (coll e st)).

(** The fields that [createContact], [createArtist], ... copy as they
    are, and the ones they pass through [nullify]. *)
Definition copied_fields (e : Entity) : list string :=
  match e with
  | Contact => ["name"; "email"; "message"]
  | Artist => ["name"; "slug"]
  | RadioShow => ["title"; "slug"; "hostName"]
  | Playlist => ["title"; "slug"]
  | Video => ["title"; "slug"]
  | _ => []
  end.

Definition nullified_fields (e : Entity) : list string :=
  match e with
  | Contact => ["subject"; "category"; "attachmentUrl"]
  | Artist => ["bio"; "imageUrl"; "spotifyArtistId"; "socialLinks"; "featured"]
  | RadioShow =>
      ["description"; "hostBio"; "hostImageUrl"; "coverUrl"; "streamUrl";
       "recordedUrl"; "dayOfWeek"; "startTime"; "endTime"; "timezone";
       "isLive"; "published"]
  | Playlist =>
      ["featured"; "coverUrl"; "spotifyUrl"; "published"; "description";
       "spotifyPlaylistId"; "trackCount"]
  | Video =>
      ["featured"; "artistId"; "artistName"; "published"; "description";
       "thumbnailUrl"; "videoUrl"; "youtubeId"; "duration"; "category";
       "vimeoId"]
  | _ => []
  end.

(** The record that [createX] stores: [{ ...insert, id, createdAt }] for
    releases, events and posts; a field-by-field literal for the other
    tables ([status: "new"] on a contact). *)
Definition new_record (e : Entity) (insert : Obj) (id : string) (now : Z) : Obj :=
  match e with
  | Release | Event | Post =>
      <["createdAt" := JDate now]> (<["id" := JStr id]> insert)
  | _ =>
      let copied := (λ k, (k, prop insert k)) <$> copied_fields e in
      let nulled := (λ k, (k, nullify (prop insert k))) <$> nullified_fields e in
      let status := if decide (e = Contact) then [("status", JStr "new")] else [] in
      list_to_map ([("id", JStr id)] ++ copied ++ nulled ++ status
                   ++ [("createdAt", JDate now)])
  end.

Definition create (e : Entity) (insert : Obj) (id : string) (now : Z) : M t Obj :=
  let newRecord := new_record e insert id now in
  modify (set_coll e (Map_set id newRecord));;;
  ret newRecord.

Definition update (e : Entity) (id : string) (upd : Obj) : M t (option Obj) :=
  existing <- gets (λ st, Map_get id (coll e st));;
  match existing with
  | None => throw (not_found_message e)
  | Some existing =>
      let updated := spread existing upd in
      modify (set_coll e (Map_set id updated));;;
      ret (Some updated)
  end.

Definition delete (e : Entity) (id : string) : M t unit :=
  modify (set_coll e (Map_delete id)).

(** *** The constructor and [seedData] (lines 97-151)

    [uuid k] is the result of the [k]-th call of [randomUUID()], counted
    from 0 in evaluation order; [now] is the clock reading. *)

Definition img (photo size : string) : JsVal :=
  JStr ("https://images.unsplash.com/photo-" +:+ photo +:+ size).

Definition seedArtists (uuid : nat → string) (now : Z) : list Obj :=
  let sz := "?w=400&h=400&fit=crop" in
  list_to_map <$>
  [ [("id", JStr (uuid 0%nat)); ("name", JStr "Luna Wave"); ("slug", JStr "luna-wave");
     ("bio", JStr "Electronic music producer from Berlin");
     ("imageUrl", img "1493225457124-a3eb161ffa5f" sz);
     ("featured", JBool true); ("createdAt", JDate now)];
    [("id", JStr (uuid 1%nat)); ("name", JStr "Neon Pulse"); ("slug", JStr "neon-pulse");
     ("bio", JStr "Techno artist pushing boundaries");
     ("imageUrl", img "1514320291840-2e0a9bf2a9ae" sz);
     ("featured", JBool true); ("createdAt", JDate now)];
    [("id", JStr (uuid 2%nat)); ("name", JStr "Aqua Dreams"); ("slug", JStr "aqua-dreams");
     ("bio", JStr "Deep house specialist");
     ("imageUrl", img "1470225620780-dba8ba36b745" sz);
     ("featured", JBool false); ("createdAt", JDate now)] ].

Definition seedReleases (uuid : nat → string) (now : Z) : list Obj :=
  let sz := "?w=400&h=400&fit=crop" in
  list_to_map <$>
  [ [("id", JStr (uuid 3%nat)); ("title", JStr "Midnight Sessions");
     ("slug", JStr "midnight-sessions"); ("artistName", JStr "Luna Wave");
     ("coverUrl", img "1493225457124-a3eb161ffa5f" sz);
     ("type", JStr "album"); ("genres", JArr ["Electronic"; "House"]);
     ("published", JBool true); ("featured", JBool true);
     ("releaseDate", JDate 1705276800000); ("createdAt", JDate now)];
    [("id", JStr (uuid 4%nat)); ("title", JStr "Echoes of Tomorrow");
     ("slug", JStr "echoes-of-tomorrow"); ("artistName", JStr "Neon Pulse");
     ("coverUrl", img "1514320291840-2e0a9bf2a9ae" sz);
     ("type", JStr "single"); ("genres", JArr ["Techno"]);
     ("published", JBool true); ("featured", JBool false);
     ("releaseDate", JDate 1706745600000); ("createdAt", JDate now)];
    [("id", JStr (uuid 5%nat)); ("title", JStr "Deep Waters");
     ("slug", JStr "deep-waters"); ("artistName", JStr "Aqua Dreams");
     ("coverUrl", img "1470225620780-dba8ba36b745" sz);
     ("type", JStr "ep"); ("genres", JArr ["Deep House"]);
     ("published", JBool true); ("featured", JBool true);
     ("releaseDate", JDate 1707523200000); ("createdAt", JDate now)] ].

Definition seedEvents (uuid : nat → string) (now : Z) : list Obj :=
  let sz := "?w=600&h=400&fit=crop" in
  list_to_map <$>
  [ [("id", JStr (uuid 6%nat)); ("title", JStr "GroupTherapy Sessions Vol. 1");
     ("slug", JStr "grouptherapy-sessions-vol-1"); ("venue", JStr "Warehouse 23");
     ("city", JStr "London"); ("country", JStr "UK");
     ("date", JDate (now + 7 * 24 * 60 * 60 * 1000));
     ("imageUrl", img "1540039155733-5bb30b53aa14" sz);
     ("ticketPrice", JStr "25"); ("published", JBool true);
     ("featured", JBool true); ("createdAt", JDate now)];
    [("id", JStr (uuid 7%nat)); ("title", JStr "Summer Festival 2024");
     ("slug", JStr "summer-festival-2024"); ("venue", JStr "Victoria Park");
     ("city", JStr "Manchester"); ("country", JStr "UK");
     ("date", JDate (now + 14 * 24 * 60 * 60 * 1000));
     ("imageUrl", img "1459749411175-04bf5292ceea" sz);
     ("ticketPrice", JStr "45"); ("published", JBool true);
     ("featured", JBool false); ("createdAt", JDate now)] ].

Definition seedPosts (uuid : nat → string) (now : Z) : list Obj :=
  let sz := "?w=800&h=400&fit=crop" in
  list_to_map <$>
  [ [("id", JStr (uuid 8%nat));
     ("title", JStr "GroupTherapy Announces Summer Festival 2024 Lineup");
     ("slug", JStr "summer-festival-2024-lineup");
     ("excerpt", JStr "Get ready for the biggest GroupTherapy event yet!");
     ("coverUrl", img "1459749411175-04bf5292ceea" sz);
     ("category", JStr "events"); ("published", JBool true);
     ("featured", JBool true); ("publishedAt", JDate 1709251200000);
     ("authorName", JStr "GroupTherapy Team"); ("createdAt", JDate now)];
    [("id", JStr (uuid 9%nat));
     ("title", JStr "Luna Wave Drops New Album 'Midnight Sessions'");
     ("slug", JStr "luna-wave-midnight-sessions");
     ("excerpt", JStr "After two years in the making, Luna Wave delivers her most ambitious project to date.");
     ("coverUrl", img "1493225457124-a3eb161ffa5f" sz);
     ("category", JStr "releases"); ("published", JBool true);
     ("featured", JBool false); ("publishedAt", JDate 1709078400000);
     ("authorName", JStr "Sarah Chen"); ("createdAt", JDate now)] ].

Definition seedShows (uuid : nat → string) (now : Z) : list Obj :=
  list_to_map <$>
  [ [("id", JStr (uuid 10%nat)); ("title", JStr "Morning Therapy");
     ("slug", JStr "morning-therapy"); ("hostName", JStr "DJ Luna");
     ("description", JStr "Wake up with the smoothest electronic beats");
     ("dayOfWeek", JNum 1); ("startTime", JStr "07:00"); ("endTime", JStr "10:00");
     ("timezone", JStr "UTC"); ("published", JBool true); ("isLive", JBool false);
     ("createdAt", JDate now)];
    [("id", JStr (uuid 11%nat)); ("title", JStr "Peak Time Sessions");
     ("slug", JStr "peak-time-sessions"); ("hostName", JStr "Neon Pulse");
     ("description", JStr "High-energy techno and house");
     ("dayOfWeek", JNum 2); ("startTime", JStr "20:00"); ("endTime", JStr "23:00");
     ("timezone", JStr "UTC"); ("published", JBool true); ("isLive", JBool true);
     ("createdAt", JDate now)] ].

(** [items.forEach(x => this.table.set(x.id, x))]. The [id] of a seed
    record is a string, so the key is that string. *)
Definition set_each (items : list Obj) (m : JsMap Obj) : JsMap Obj :=
  fold_left (λ m x, match prop x "id" with
                    | JStr id => Map_set id x m
                    | _ => m
                    end) items m.

Definition seedData (uuid : nat → string) (now : Z) (st : t) : t :=
  let st := set_coll Artist (set_each (seedArtists uuid now)) st in
  let st := set_coll Release (set_each (seedReleases uuid now)) st in
  let st := set_coll Event (set_each (seedEvents uuid now)) st in
  let st := set_coll Post (set_each (seedPosts uuid now)) st in
  set_coll RadioShow (set_each (seedShows uuid now)) st.

(** [new MemStorage()] *)
Definition new (uuid : nat → string) (now : Z) : t := seedData uuid now empty.

Definition updateRelease := update Release.
Definition getAllReleases := getAll Release.
Definition getAllEvents := getAll Event.
Definition getAllPosts := getAll Post.
Definition getAllContacts := getAll Contact.
Definition getAllArtists := getAll Artist.
Definition getAllRadioShows := getAll RadioShow.
Definition getAllPlaylists := getAll Playlist.
Definition getAllVideos := getAll Video.

End MemStorage.

(** ** [class DatabaseStorage implements IStorage] (db-storage.ts)

    A table is the list of its rows; [select ... where c] keeps the rows
    that satisfy [c], and [result[0]] is the head of that list. No query
    of the class has an [ORDER BY]: the order in which a select returns
    the rows is not fixed by the code. The list keeps the rows in the
    order of their insertion, an updated row in its place, as one order
    among the possible ones; what is proved of a listing after writes is
    proved up to the order of the rows. The
    tables [users], [radio_settings], [page_views], [play_counts] and
    [radio_listeners] are left out: the methods on them read and write no
    other table. *)
Module DatabaseStorage.

Record t := {
  adminUsers : list AdminUser;
  loginAttempts : list LoginAttempt;
  sessions : list Session;
  releases : list Obj;
  events : list Obj;
  posts : list Obj;
  contacts : list Obj;
  artists : list Obj;
  radioShows : list Obj;
  playlists : list Obj;
  videos : list Obj
}.

Definition empty : t :=
  {| adminUsers := []; loginAttempts := []; sessions := []; releases := [];
     events := []; posts := []; contacts := []; artists := [];
     radioShows := []; playlists := []; videos := [] |}.

Definition set_adminUsers (f : list AdminUser → list AdminUser) (st : t) : t :=
  {| adminUsers := f (adminUsers st); loginAttempts := loginAttempts st;
     sessions := sessions st;
     releases := releases st; events := events st; posts := posts st;
     contacts := contacts st; artists := artists st;
     radioShows := radioShows st; playlists := playlists st;
     videos := videos st |}.

Definition set_loginAttempts (f : list LoginAttempt → list LoginAttempt) (st : t) : t :=
  {| adminUsers := adminUsers st; loginAttempts := f (loginAttempts st);
     sessions := sessions st;
     releases := releases st; events := events st; posts := posts st;
     contacts := contacts st; artists := artists st;
     radioShows := radioShows st; playlists := playlists st;
     videos := videos st |}.

Definition set_sessions (f : list Session → list Session) (st : t) : t :=
  {| adminUsers := adminUsers st; loginAttempts := loginAttempts st;
     sessions := f (sessions st);
     releases := releases st; events := events st; posts := posts st;
     contacts := contacts st; artists := artists st;
     radioShows := radioShows st; playlists := playlists st;
     videos := videos st |}.

Definition coll (e : Entity) (st : t) : list Obj :=
  match e with
  | Release => releases st
  | Event => events st
  | Post => posts st
  | Contact => contacts st
  | Artist => artists st
  | RadioShow => radioShows st
  | Playlist => playlists st
  | Video => videos st
  end.

Definition set_coll (e : Entity) (f : list Obj → list Obj) (st : t) : t :=
  let on e' m := if decide (e' = e) then f m else m in
  {| adminUsers := adminUsers st; loginAttempts := loginAttempts st;
     sessions := sessions st;
     releases := on Release (releases st); events := on Event (events st);
     posts := on Post (posts st); contacts := on Contact (contacts st);
     artists := on Artist (artists st);
     radioShows := on RadioShow (radioShows st);
     playlists := on Playlist (playlists st);
     videos := on Video (videos st) |}.

(** *** Admin users *)

Definition getAdminUserByUsername (username : string) : M t (option AdminUser) :=
  result <- gets (λ st, List.filter (λ r, bool_decide (au_username r = username))
                                    (adminUsers st));;
  ret (head result).

(** Modelled from the spec: the [admin_users] table of shared/schema,
    which is not among the sources. The spec gives it a unique
    [username] ("Exactly one AdminUser row per username"), so the insert
    of a second row for a username is refused; [role] and [isActive]
    take the defaults that [MemStorage.createAdminUser] spells out, the
    [id] is the next serial number, and the timestamps are the clock
    reading. *)
Definition createAdminUser (user : InsertAdminUser) (now : Z) : M t AdminUser :=
  existing <- getAdminUserByUsername (iau_username user);;
  match existing with
  | Some _ => throw "duplicate key value violates unique constraint"
  | None =>
      n <- gets (λ st, Z.of_nat (length (adminUsers st)));;
      let row :=
        {| au_id := n + 1;
           au_username := iau_username user;
           au_passwordHash := iau_passwordHash user;
           au_role := default "admin" (iau_role user);
           au_isActive := default true (iau_isActive user);
           au_lastLoginAt := None;
           au_createdAt := now;
           au_updatedAt := now |} in
      modify (set_adminUsers (λ rows, rows ++ [row]));;;
      ret row
  end.

Definition touch_login (now : Z) (r : AdminUser) : AdminUser :=
  {| au_id := au_id r; au_username := au_username r;
     au_passwordHash := au_passwordHash r; au_role := au_role r;
     au_isActive := au_isActive r;
     au_lastLoginAt := Some now;
     au_createdAt := au_createdAt r;
     au_updatedAt := now |}.

Definition updateAdminLastLogin (username : string) (now : Z) : M t unit :=
  modify (set_adminUsers
            (fmap (λ r, if bool_decide (au_username r = username)
                        then touch_login now r else r))).

(** *** Login attempts *)

(** The row that [insert(...).values(attempt).returning()] stores: the
    [id] is the next serial number and [attemptedAt] is filled by the
    column default, the clock reading. *)
Definition recordLoginAttempt (attempt : InsertLoginAttempt) (now : Z)
  : M t LoginAttempt :=
  n <- gets (λ st, Z.of_nat (length (loginAttempts st)));;
  let row :=
    {| la_id := n + 1;
       la_username := ila_username attempt;
       la_ipAddress := ila_ipAddress attempt;
       la_successful := ila_successful attempt;
       la_attemptedAt := now |} in
  modify (set_loginAttempts (λ rows, rows ++ [row]));;;
  ret row.

(** Lines 121-125. [cutoffTime] is computed and then not used: the
    query selects on the username alone. *)
Definition getRecentLoginAttempts (username : string) (minutes now : Z)
  : M t (list LoginAttempt) :=
  let cutoffTime := now - minutes * 60 * 1000 in
  gets (λ st, List.filter (λ r, bool_decide (la_username r = username))
                          (loginAttempts st)).

(** *** Content tables *)

(** [eq(schema.releases.id, id)] on a row. *)
Definition has_id (id : string) (r : Obj) : bool :=
  bool_decide (r !! "id" = Some (JStr id)).

Definition getAll (e : Entity) : M t (list Obj) :=
  gets (coll e).

Definition getById (e : Entity) (id : string) : M t (option Obj) :=
  result <- gets (λ st, List.filter (has_id id) (coll e st));;
  ret (head result).

(** Modelled from the spec: the content tables of shared/schema, which
    is not among the sources. Per the spec, create "assigns an identifier
    and creation timestamp, persists, returns the stored record", and the
    store has "uniqueness and primary keys". [insert(table).values(insert)]
    stores the values the caller gives, an [id] or [createdAt] among them
    included; the column defaults fill in the two where the caller gives
    none: [id] is the identifier the database generates and [now] its
    clock reading. The [id] is the key of the table, so the insert of a
    second row with a stored id is refused. *)
Definition create (e : Entity) (insert : Obj) (id : string) (now : Z) : M t Obj :=
  let defaults : Obj := <["createdAt" := JDate now]> {[ "id" := JStr id ]} in
  let row := spread defaults (defined insert) in
  existing <- gets (λ st, List.filter (λ r, bool_decide (r !! "id" = row !! "id"))
                                      (coll e st));;
  match existing with
  | _ :: _ => throw "duplicate key value violates unique constraint"
  | [] =>
      modify (set_coll e (λ rows, rows ++ [row]));;;
      ret row
  end.

(** [Object.entries(values).length === 0] for the values that [set]
    takes. *)
Definition no_values (values : Obj) : bool :=
  bool_decide (map_to_list values = []).

(** [update(table).set(update).where(eq(table.id, id)).returning()],
    then [return result[0]]. [set] takes the properties of [update] that
    are not [undefined] and throws when there is none. With no row of
    that id, nothing is written and [result[0]] is [undefined].
    [update] is a [Partial<Release>]: its properties are columns of the
    table. *)
Definition update (e : Entity) (id : string) (upd : Obj) : M t (option Obj) :=
  let values := defined upd in
  if no_values values then throw "No values to set"
  else
    result <- gets (λ st, (λ r, spread r values)
                            <$> List.filter (has_id id) (coll e st));;
    modify (set_coll e (fmap (λ r, if has_id id r then spread r values else r)));;;
    ret (head result).

Definition delete (e : Entity) (id : string) : M t unit :=
  modify (set_coll e (List.filter (λ r, negb (has_id id r)))).

Definition updateRelease := update Release.

(** *** Sessions (lines 320-340) *)

Definition getSession (id : string) : M t (option Session) :=
  result <- gets (λ st, List.filter (λ r, bool_decide (s_id r = id)) (sessions st));;
  ret (head result).

(** Modelled from the spec: the [sessions] table of shared/schema, which
    is not among the sources. Its [id] is the key of the table, so the
    insert of a second row with a stored id is refused. *)
Definition createSession (session : Session) : M t Session :=
  existing <- getSession (s_id session);;
  match existing with
  | Some _ => throw "duplicate key value violates unique constraint"
  | None =>
      let row := {| s_id := s_id session; s_username := s_username session;
                    s_expiresAt := s_expiresAt session |} in
      modify (set_sessions (λ rows, rows ++ [row]));;;
      ret row
  end.

Definition deleteSession (id : string) : M t unit :=
  modify (set_sessions (List.filter (λ r, negb (bool_decide (s_id r = id))))).

Definition deleteExpiredSessions (now : Z) : M t unit :=
  modify (set_sessions (List.filter (λ r, negb (s_expiresAt r <? now)))).

End DatabaseStorage.

(** The two classes as implementations of the contract. *)
Global Instance MemStorage_IStorage : IStorage MemStorage.t := {|
  getAdminUserByUsername := MemStorage.getAdminUserByUsername;
  createAdminUser := MemStorage.createAdminUser;
  updateAdminLastLogin := MemStorage.updateAdminLastLogin;
  recordLoginAttempt := MemStorage.recordLoginAttempt;
  getRecentLoginAttempts := MemStorage.getRecentLoginAttempts;
  getAll := MemStorage.getAll;
  getById := MemStorage.getById;
  create := MemStorage.create;
  update := MemStorage.update;
  delete := MemStorage.delete
|}.

Global Instance DatabaseStorage_IStorage : IStorage DatabaseStorage.t := {|
  getAdminUserByUsername := DatabaseStorage.getAdminUserByUsername;
  createAdminUser := DatabaseStorage.createAdminUser;
  updateAdminLastLogin := DatabaseStorage.updateAdminLastLogin;
  recordLoginAttempt := DatabaseStorage.recordLoginAttempt;
  getRecentLoginAttempts := DatabaseStorage.getRecentLoginAttempts;
  getAll := DatabaseStorage.getAll;
  getById := DatabaseStorage.getById;
  create := DatabaseStorage.create;
  update := DatabaseStorage.update;
  delete := DatabaseStorage.delete
|}.

(** ** server/auth.ts *)
Module Auth.

(** Rate limiting configuration (lines 536-538). *)
Definition MAX_LOGIN_ATTEMPTS : Z := 5.
Definition LOCKOUT_DURATION_MINUTES : Z := 15.
Definition ATTEMPT_WINDOW_MINUTES : Z := 15.

(** [n.toString(36)] for an integer [n >= 0]. *)
Definition digit36 (d : Z) : ascii :=
  default "0"%char (String.get (Z.to_nat d) "0123456789abcdefghijklmnopqrstuvwxyz").

Fixpoint toString36_go (fuel : nat) (n : Z) (acc : string) : string :=
  let acc := String (digit36 (n mod 36)) acc in
  match fuel with
  | O => acc
  | S fuel => if n / 36 =? 0 then acc else toString36_go fuel (n / 36) acc
  end.

Definition toString36 (n : Z) : string :=
  toString36_go (Z.to_nat (Z.log2 n)) n "".

(** [Math.random().toString(36).substring(2) + Date.now().toString(36)];
    [rnd] is the first summand, the digits of the random draw. *)
Definition generateSessionId (rnd : string) (now : Z) : string :=
  rnd +:+ toString36 now.

(** The session functions go to the exported [storage], which is a
    [DatabaseStorage] (storage.ts, line 518). *)
Definition createSession (username rnd : string) (now : Z)
  : M DatabaseStorage.t string :=
  let sessionId := generateSessionId rnd now in
  let expiresAt := now + 24 * 60 * 60 * 1000 in
  DatabaseStorage.createSession
    {| s_id := sessionId; s_username := username; s_expiresAt := expiresAt |};;;
  ret sessionId.

Definition validateSession (sessionId : string) (now : Z)
  : M DatabaseStorage.t (option string) :=
  session <- DatabaseStorage.getSession sessionId;;
  match session with
  | None => ret None
  | Some session =>
      if now >? s_expiresAt session
      then (DatabaseStorage.deleteSession sessionId;;; ret None)
      else ret (Some (s_username session))
  end.

Definition deleteSession (sessionId : string) : M DatabaseStorage.t unit :=
  DatabaseStorage.deleteSession sessionId.

(** The value [{ valid, message? }] that [validateCredentials] returns. *)
Record LoginResult := {
  valid : bool;
  message : option string
}.

Definition lockout_message : string :=
  "Too many failed login attempts. Please try again in "
  +:+ pretty LOCKOUT_DURATION_MINUTES +:+ " minutes.".

Section WithStorage.
(** The storage the functions run against, and [bcrypt.compare]. *)
Context {S : Type} `{!IStorage S}.
Variable bcrypt_compare : string → string → bool.

Definition isRateLimited (username : string) (now : Z) : M S bool :=
  recentAttempts <- getRecentLoginAttempts username ATTEMPT_WINDOW_MINUTES now;;
  let failedAttempts :=
    List.filter (λ attempt, negb (la_successful attempt)) recentAttempts in
  ret (MAX_LOGIN_ATTEMPTS <=? Z.of_nat (length failedAttempts)).

Definition failed (username : string) (ipAddress : option string)
  : InsertLoginAttempt :=
  {| ila_username := username; ila_ipAddress := ipAddress;
     ila_successful := false |}.

Definition validateCredentials (username password : string)
    (ipAddress : option string) (now : Z) : M S LoginResult :=
  limited <- isRateLimited username now;;
  if limited : bool then
    recordLoginAttempt (failed username ipAddress) now;;;
    ret {| valid := false; message := Some lockout_message |}
  else
    adminUser <- getAdminUserByUsername username;;
    match adminUser with
    | None =>
        recordLoginAttempt (failed username ipAddress) now;;;
        ret {| valid := false; message := Some "Invalid credentials" |}
    | Some adminUser =>
        if negb (au_isActive adminUser) then
          recordLoginAttempt (failed username ipAddress) now;;;
          ret {| valid := false; message := Some "Account is inactive" |}
        else
          let isValid := bcrypt_compare password (au_passwordHash adminUser) in
          recordLoginAttempt
            {| ila_username := username; ila_ipAddress := ipAddress;
               ila_successful := isValid |} now;;;
          if isValid then
            updateAdminLastLogin username now;;;
            ret {| valid := true; message := None |}
          else
            ret {| valid := false; message := Some "Invalid credentials" |}
    end.
End WithStorage.

End Auth.

(** ** Calls on a storage, and their caller-observable answers *)

Inductive StorageCall : Type :=
  | GetAdminUserByUsername (username : string)
  | CreateAdminUser (user : InsertAdminUser)
  | UpdateAdminLastLogin (username : string)
  | RecordLoginAttempt (attempt : InsertLoginAttempt)
  | GetRecentLoginAttempts (username : string) (minutes : Z)
  | GetAll (e : Entity)
  | GetById (e : Entity) (id : string)
  | Create (e : Entity) (insert : Obj) (id : string)
  | Update (e : Entity) (id : string) (upd : Obj)
  | Delete (e : Entity) (id : string).

Inductive Answer : Type :=
  | AnsAdminUser (user : option AdminUser)
  | AnsLoginAttempts (rows : list LoginAttempt)
  | AnsRecords (rows : list Obj)
  | AnsRecord (row : option Obj)
  | AnsVoid.

(** One call of a method of the contract at clock reading [now]. *)
Definition perform {S : Type} `{!IStorage S} (c : StorageCall) (now : Z) : M S Answer :=
  match c with
  | GetAdminUserByUsername username =>
      r <- getAdminUserByUsername username;; ret (AnsAdminUser r)
  | CreateAdminUser user =>
      r <- createAdminUser user now;; ret (AnsAdminUser (Some r))
  | UpdateAdminLastLogin username =>
      updateAdminLastLogin username now;;; ret AnsVoid
  | RecordLoginAttempt attempt =>
      r <- recordLoginAttempt attempt now;; ret (AnsLoginAttempts [r])
  | GetRecentLoginAttempts username minutes =>
      r <- getRecentLoginAttempts username minutes now;; ret (AnsLoginAttempts r)
  | GetAll e => r <- getAll e;; ret (AnsRecords r)
  | GetById e id => r <- getById e id;; ret (AnsRecord r)
  | Create e insert id => r <- create e insert id now;; ret (AnsRecord (Some r))
  | Update e id upd => r <- update e id upd;; ret (AnsRecord r)
  | Delete e id => delete e id;;; ret AnsVoid
  end.

(** A sequence of calls, each with its clock reading: the answers the
    caller sees, in order, and the store at the end. A call that throws
    leaves the store as it was when the error was raised. *)
Fixpoint perform_all {S : Type} `{!IStorage S} (calls : list (StorageCall * Z)) (st : S)
  : list (outcome Answer) * S :=
  match calls with
  | [] => ([], st)
  | (c, now) :: calls =>
      let '(a, st') := perform c now st in
      let '(answers, st'') := perform_all calls st' in
      (a :: answers, st'')
  end.

(** What the route layer can ask of the deployed system: a method of the
    storage contract, a session method of [DatabaseStorage], or a
    function of auth.ts. *)
Inductive Request : Type :=
  | OnStorage (c : StorageCall)
  | StorageCreateSession (session : Session)
  | StorageGetSession (id : string)
  | StorageDeleteSession (id : string)
  | StorageDeleteExpiredSessions
  | CreateSession (username rnd : string)
  | ValidateSession (sessionId : string)
  | DeleteSession (sessionId : string)
  | ValidateCredentials (username password : string) (ipAddress : option string).

(** The store after one request. *)
Definition serve (bcrypt_compare : string → string → bool)
    (r : Request) (now : Z) (st : DatabaseStorage.t) : DatabaseStorage.t :=
  match r with
  | OnStorage c => (perform c now st).2
  | StorageCreateSession session => (DatabaseStorage.createSession session st).2
  | StorageGetSession id => (DatabaseStorage.getSession id st).2
  | StorageDeleteSession id => (DatabaseStorage.deleteSession id st).2
  | StorageDeleteExpiredSessions => (DatabaseStorage.deleteExpiredSessions now st).2
  | CreateSession username rnd => (Auth.createSession username rnd now st).2
  | ValidateSession sessionId => (Auth.validateSession sessionId now st).2
  | DeleteSession sessionId => (Auth.deleteSession sessionId st).2
  | ValidateCredentials username password ipAddress =>
      (Auth.validateCredentials bcrypt_compare username password ipAddress now st).2
  end.

Definition serve_all (bcrypt_compare : string → string → bool)
    (rs : list (Request * Z)) (st : DatabaseStorage.t) : DatabaseStorage.t :=
  fold_left (λ st r, serve bcrypt_compare r.1 r.2 st) rs st.

(** ** The rate-limit window as the specification words it *)

(** [t] lies in the trailing window of [minutes] minutes before [now]. *)
Definition in_window (now minutes t : Z) : bool :=
  (now - minutes * 60 * 1000 <=? t) && (t <=? now).

(** The failed attempts for [username] among [rows]. *)
Definition failed_attempts (username : string) (rows : list LoginAttempt)
  : list LoginAttempt :=
  List.filter (λ r, bool_decide (la_username r = username) && negb (la_successful r))
              rows.

(** "the number of failed LoginAttempt rows for u whose attemptedAt lies
    within the trailing 15-minute window before the call". *)
Definition failed_in_window (username : string) (now : Z) (rows : list LoginAttempt)
  : Z :=
  Z.of_nat (length (List.filter (λ r, in_window now 15 (la_attemptedAt r))
                                (failed_attempts username rows))).

(** The rate-limit decision the specification asks for. *)
Definition spec_isRateLimited (username : string) (now : Z) (rows : list LoginAttempt)
  : bool :=
  5 <=? failed_in_window username now rows.

(** ** Sample data for the closed examples *)

(** A stand-in for [bcrypt]: the hash of [p] is ["bcrypt:" + p]. *)
Definition demo_hash (password : string) : string := "bcrypt:" +:+ password.
Definition demo_compare (password hash : string) : bool :=
  bool_decide (demo_hash password = hash).

(** A stand-in for [randomUUID()]: the [k]-th draw. *)
Definition demo_uuid (k : nat) : string := "uuid-" +:+ pretty k.

Definition demo_admin : AdminUser :=
  {| au_id := 1; au_username := "admin"; au_passwordHash := demo_hash "secret123";
     au_role := "admin"; au_isActive := true; au_lastLoginAt := None;
     au_createdAt := 0; au_updatedAt := 0 |}.

Definition failed_row (id : Z) (username : string) (at_ : Z) : LoginAttempt :=
  {| la_id := id; la_username := username; la_ipAddress := None;
     la_successful := false; la_attemptedAt := at_ |}.

(** A database with the admin user and five failed logins at time 0. *)
Definition demo_locked : DatabaseStorage.t :=
  DatabaseStorage.set_loginAttempts
    (λ _, (λ i, failed_row i "admin" 0) <$> [1; 2; 3; 4; 5])
    (DatabaseStorage.set_adminUsers (λ _, [demo_admin]) DatabaseStorage.empty).

(** A database with the admin user only. *)
Definition demo_db : DatabaseStorage.t :=
  DatabaseStorage.set_adminUsers (λ _, [demo_admin]) DatabaseStorage.empty.

(** A database with one session that expires at time 1000. *)
Definition demo_sessions : DatabaseStorage.t :=
  DatabaseStorage.set_sessions
    (λ _, [ {| s_id := "tok"; s_username := "admin"; s_expiresAt := 1000 |} ])
    demo_db.


(** The row that [DatabaseStorage.recordLoginAttempt] adds to the store
    [st] for an attempt with these fields at clock reading [now]. *)
Definition attempt_row (st : DatabaseStorage.t) (username : string)
    (ip : option string) (ok : bool) (now : Z) : LoginAttempt :=
  {| la_id := Z.of_nat (length (DatabaseStorage.loginAttempts st)) + 1;
     la_username := username; la_ipAddress := ip; la_successful := ok;
     la_attemptedAt := now |}.

(** The database that holds the rows of a [MemStorage], table by table,
    and no session. *)
Definition to_database (m : MemStorage.t) : DatabaseStorage.t :=
  {| DatabaseStorage.adminUsers := Map_values (MemStorage.adminUsers m);
     DatabaseStorage.loginAttempts := MemStorage.loginAttempts m;
     DatabaseStorage.sessions := [];
     DatabaseStorage.releases := Map_values (MemStorage.releases m);
     DatabaseStorage.events := Map_values (MemStorage.events m);
     DatabaseStorage.posts := Map_values (MemStorage.posts m);
     DatabaseStorage.contacts := Map_values (MemStorage.contacts m);
     DatabaseStorage.artists := Map_values (MemStorage.artists m);
     DatabaseStorage.radioShows := Map_values (MemStorage.radioShows m);
     DatabaseStorage.playlists := Map_values (MemStorage.playlists m);
     DatabaseStorage.videos := Map_values (MemStorage.videos m) |}.

(** A freshly constructed [MemStorage] and the database with its rows. *)
Definition demo_mem : MemStorage.t := MemStorage.new demo_uuid 0.
Definition demo_catalog : DatabaseStorage.t := to_database demo_mem.

(** The body of [PATCH /api/releases/missing]. *)
Definition demo_patch : Obj := {[ "title" := JStr "X" ]}.

(** ** The route layer (server/routes.ts) and [requireAuth] (auth.ts) *)

(** [s.replace(pattern, replacement)] with a string pattern: the first
    occurrence of the pattern, if any, is replaced. *)
Fixpoint strip_prefix (pattern s : string) : option string :=
  match pattern with
  | EmptyString => Some s
  | String a pattern' =>
      match s with
      | EmptyString => None
      | String b s' => if Ascii.eqb a b then strip_prefix pattern' s' else None
      end
  end.

Fixpoint replace_first (pattern replacement s : string) : string :=
  match strip_prefix pattern s with
  | Some rest => replacement +:+ rest
  | None =>
      match s with
      | EmptyString => EmptyString
      | String c s' => String c (replace_first pattern replacement s')
      end
  end.

(** [pattern] occurs in [s]. *)
Fixpoint occurs (pattern s : string) : bool :=
  match strip_prefix pattern s with
  | Some _ => true
  | None =>
      match s with
      | EmptyString => false
      | String _ s' => occurs pattern s'
      end
  end.

(** Truthiness of a value that is a string or [undefined]: [!x] is
    false exactly for a non-empty string. *)
Definition truthy (x : option string) : bool :=
  match x with
  | Some s => negb (String.eqb s "")
  | None => false
  end.

(** [req.headers.authorization?.replace("Bearer ", "")] *)
Definition bearer (authorization : option string) : option string :=
  replace_first "Bearer " "" <$> authorization.

(** What a handler sends: [res.status(n).json(body)], the status being
    200 when it is not set. *)
Inductive Body : Type :=
  | Message (message : string)
  | Records (rows : list Obj)
  | OneRecord (row : option Obj)
  | LoggedIn (sessionId username : string)
  | Me (username : string).

Record Response := {
  status : Z;
  body : Body
}.

Definition json (b : Body) : Response := {| status := 200; body := b |}.
Definition status_json (n : Z) (message : string) : Response :=
  {| status := n; body := Message message |}.

(** [try { ... } catch (error) { res.status(n).json({ message: error.message }) }] *)
Definition catching {S} (n : Z) (m : M S Response) : M S Response :=
  λ st, match m st with
        | (Returned r, st') => (Returned r, st')
        | (Thrown msg, st') => (Returned (status_json n msg), st')
        end.

(** auth.ts, lines 632-646. The middleware either sends a response
    ([inl]) or sets [req.user] and calls [next()] ([inr], with the
    username). *)
Definition requireAuth (authorization : option string) (now : Z)
  : M DatabaseStorage.t (Response + string) :=
  let sessionId := bearer authorization in
  if negb (truthy sessionId) then
    ret (inl (status_json 401 "Authentication required"))
  else
    username <- Auth.validateSession (default "" sessionId) now;;
    if negb (truthy username) then
      ret (inl (status_json 401 "Invalid or expired session"))
    else
      ret (inr (default "" username)).

Module Routes.

Section Handlers.
Variable bcrypt_compare : string → string → bool.

(** [POST /api/auth/login] (lines 21-42). [username] and [password]
    are the two fields of the body, [ipAddress] is
    [req.ip || req.socket.remoteAddress], [rnd] the random digits of the
    session identifier. *)
Definition login (username password : option string) (ipAddress : option string)
    (rnd : string) (now : Z) : M DatabaseStorage.t Response :=
  catching 500
    (if negb (truthy username) || negb (truthy password) then
       ret (status_json 400 "Username and password are required")
     else
       let username := default "" username in
       let password := default "" password in
       result <- Auth.validateCredentials bcrypt_compare username password
                   ipAddress now;;
       if negb (Auth.valid result) then
         ret (status_json 401
                (if truthy (Auth.message result)
                 then default "" (Auth.message result)
                 else "Invalid credentials"))
       else
         sessionId <- Auth.createSession username rnd now;;
         ret (json (LoggedIn sessionId username))).

(** [POST /api/auth/logout] (lines 44-50) *)
Definition logout (authorization : option string) : M DatabaseStorage.t Response :=
  let sessionId := bearer authorization in
  (if truthy sessionId then Auth.deleteSession (default "" sessionId) else ret tt);;;
  ret (json (Message "Logged out successfully")).

(** [GET /api/auth/me] (lines 52-64) *)
Definition me (authorization : option string) (now : Z)
  : M DatabaseStorage.t Response :=
  let sessionId := bearer authorization in
  if negb (truthy sessionId) then
    ret (status_json 401 "Not authenticated")
  else
    username <- Auth.validateSession (default "" sessionId) now;;
    if negb (truthy username) then
      ret (status_json 401 "Invalid session")
    else
      ret (json (Me (default "" username))).
End Handlers.

(** The five requests on a content table (lines 143-458): [GET] of the
    collection, [GET] of a path under it, [POST], [PATCH] and
    [DELETE]. *)
Inductive Verb : Type := ListAll | GetOne | PostNew | PatchOne | DeleteOne.

(** Which routes are registered with [requireAuth]: all the writing
    ones except [POST /api/contacts], and the two reading ones of the
    contacts. *)
Definition guarded (v : Verb) (e : Entity) : bool :=
  match v with
  | ListAll | GetOne => bool_decide (e = Contact)
  | PostNew => negb (bool_decide (e = Contact))
  | PatchOne | DeleteOne => true
  end.

Definition deleted_message (e : Entity) : string :=
  match e with
  | Release => "Release deleted"
  | Event => "Event deleted"
  | Post => "Post deleted"
  | Contact => "Contact deleted"
  | Artist => "Artist deleted"
  | RadioShow => "Radio show deleted"
  | Playlist => "Playlist deleted"
  | Video => "Video deleted"
  end.

(** A letter of the ASCII alphabet in lower case. *)
Definition lower_ascii (c : ascii) : ascii :=
  let n := nat_of_ascii c in
  if Nat.leb 65 n && Nat.leb n 90 then ascii_of_nat (n + 32) else c.

Fixpoint lower (s : string) : string :=
  match s with
  | EmptyString => EmptyString
  | String c s' => String (lower_ascii c) (lower s')
  end.

(** [GET /api/artists/featured] (lines 305-308) is registered before
    [GET /api/artists/:id], and Express matches a route path without
    regard to the case of the letters: a [GET] whose last path segment
    is ["featured"] in any case is answered by the first of the two and
    does not reach the [:id] handler of the artists. No other route
    stands before a [:id] route. *)
Definition featured_route (e : Entity) (id : string) : bool :=
  bool_decide (e = Artist) && String.eqb (lower id) "featured".

(** The handler that answers a request. [id] is the last segment of the
    path, written without percent-escapes, so that [req.params.id] is
    that segment (for [PostNew]: the identifier the database generates);
    [payload] is [req.body]. *)
Definition handler (v : Verb) (e : Entity) (id : string) (payload : Obj) (now : Z)
  : M DatabaseStorage.t Response :=
  match v with
  | ListAll =>
      rows <- DatabaseStorage.getAll e;;
      ret (json (Records rows))
  | GetOne =>
      if featured_route e id then
        artists <- DatabaseStorage.getAll Artist;;
        ret (json (Records (List.filter (λ a, truthy_value (prop a "featured"))
                                        artists)))
      else
        row <- DatabaseStorage.getById e id;;
        match row with
        | None => ret (status_json 404 (not_found_message e))
        | Some row => ret (json (OneRecord (Some row)))
        end
  | PostNew =>
      catching 400
        (row <- DatabaseStorage.create e payload id now;;
         ret (json (OneRecord (Some row))))
  | PatchOne =>
      catching 400
        (row <- DatabaseStorage.update e id payload;;
         ret (json (OneRecord row)))
  | DeleteOne =>
      catching 400
        (DatabaseStorage.delete e id;;;
         ret (json (Message (deleted_message e))))
  end.

(** A route as registered: the middleware, when there is one, then the
    handler. *)
Definition route (v : Verb) (e : Entity) (authorization : option string)
    (id : string) (payload : Obj) (now : Z) : M DatabaseStorage.t Response :=
  if guarded v e then
    auth <- requireAuth authorization now;;
    match auth with
    | inl response => ret response
    | inr _ => handler v e id payload now
    end
  else handler v e id payload now.

End Routes.

(** ** Radio settings of [DatabaseStorage] (db-storage.ts, lines 342-371)

    These three methods read and write the [radio_settings] table and
    nothing else; the store they run on is that table. The table is read
    without an [ORDER BY]: which row [result[0]] is, on a table of more
    than one row, is not fixed by the code, and what is proved of the
    row read after an update is proved on a table of one row. *)
Module RadioSettings.

Definition getRadioSettings : M (list Obj) (option Obj) :=
  result <- gets (λ rows : list Obj, rows);;
  ret (head result).

(** [eq(schema.radioSettings.id, existing.id)] on a row. A comparison
    with [NULL] holds of no row. *)
Definition same_id (existing r : Obj) : bool :=
  match existing !! "id" with
  | None | Some JUndefined | Some JNull => false
  | Some id => bool_decide (r !! "id" = Some id)
  end.

(** [set({ ...settings, updatedAt: new Date() })] takes the properties
    that are not [undefined]; with [updatedAt] there is always one. *)
Definition updateRadioSettings (settings : Obj) (now : Z) : M (list Obj) (option Obj) :=
  existing <- getRadioSettings;;
  match existing with
  | None => throw "Radio settings not initialized"
  | Some existing =>
      let values := defined (<["updatedAt" := JDate now]> settings) in
      result <- gets (λ rows, (λ r, spread r values)
                                <$> List.filter (same_id existing) rows);;
      modify (fmap (λ r, if same_id existing r then spread r values else r));;;
      ret (head result)
  end.

(** Modelled from the spec: the column defaults of the [radio_settings]
    table of shared/schema, which is not among the sources; the inserted
    row gets the identifier [id] that the database generates. *)
Definition initRadioSettings (id : JsVal) : M (list Obj) (option Obj) :=
  existing <- getRadioSettings;;
  match existing with
  | Some existing => ret (Some existing)
  | None =>
      let row : Obj :=
        <["id" := id]>
          (list_to_map [("stationName", JStr "GroupTherapy Radio");
                        ("isLive", JBool false);
                        ("listenerCount", JNum 0)]) in
      modify (λ rows, rows ++ [row]);;;
      ret (Some row)
  end.

End RadioSettings.

(** ** Where the two storages correspond *)

(** The records of a [MemStorage] are stored under their own [id], and
    the admin users under their own username. (A JavaScript [Map] has no
    two entries with one key.) *)
Definition keyed_by_id (m : JsMap Obj) : Prop :=
  NoDup m.*1 ∧ Forall (λ kv, kv.2 !! "id" = Some (JStr kv.1)) m.

Definition keyed_by_username (m : JsMap AdminUser) : Prop :=
  NoDup m.*1 ∧ Forall (λ kv, au_username kv.2 = kv.1) m.

Definition well_keyed (m : MemStorage.t) : Prop :=
  keyed_by_username (MemStorage.adminUsers m)
  ∧ ∀ e, keyed_by_id (MemStorage.coll e m).

(** The database [d] holds the rows of the [MemStorage] [m]: table by
    table the same rows, in whatever order. (The sessions are of the
    database alone.) *)
Definition holds_rows_of (d : DatabaseStorage.t) (m : MemStorage.t) : Prop :=
  DatabaseStorage.adminUsers d ≡ₚ Map_values (MemStorage.adminUsers m)
  ∧ DatabaseStorage.loginAttempts d ≡ₚ MemStorage.loginAttempts m
  ∧ ∀ e, DatabaseStorage.coll e d ≡ₚ Map_values (MemStorage.coll e m).

(** Two answers that a caller cannot tell apart but by the order of the
    rows of a listing. *)
Definition same_answer (a b : Answer) : Prop :=
  match a, b with
  | AnsRecords rows, AnsRecords rows' => rows ≡ₚ rows'
  | _, _ => a = b
  end.

(** The patches on which the two [updateX] are compared: no property is
    [id], and each is a value for a field of the stored record (so that
    none is [undefined]). *)
Definition plain_patch (upd existing : Obj) : Prop :=
  upd !! "id" = None
  ∧ map_Forall (λ k v, fits existing k v = true) upd.

(** The calls on which [MemStorage] and [DatabaseStorage] are compared:
    the reads by id and by username, the listing, the delete, the
    recording of a login time, and the update of a stored record by a
    plain patch. *)
Definition comparable (c : StorageCall) (m : MemStorage.t) : Prop :=
  match c with
  | GetAdminUserByUsername _ | UpdateAdminLastLogin _
  | GetAll _ | GetById _ _ | Delete _ _ => True
  | Update e id upd =>
      ∃ existing, Map_get id (MemStorage.coll e m) = Some existing
                  ∧ plain_patch upd existing
  | CreateAdminUser _ | RecordLoginAttempt _ | GetRecentLoginAttempts _ _
  | Create _ _ _ => False
  end.

(** ** Runs of logins *)

(** [validateCredentials] for one username, once per entry of
    [tries] (password, address, clock reading): the results in order and
    the store at the end. *)
Fixpoint login_attempts (bcrypt_compare : string → string → bool) (username : string)
    (tries : list (string * option string * Z)) (st : DatabaseStorage.t)
  : list (outcome Auth.LoginResult) * DatabaseStorage.t :=
  match tries with
  | [] => ([], st)
  | (password, ip, now) :: tries =>
      let '(r, st') :=
        Auth.validateCredentials bcrypt_compare username password ip now st in
      let '(rs, st'') := login_attempts bcrypt_compare username tries st' in
      (r :: rs, st'')
  end.

(** The result of a refused login. *)
Definition refused (r : outcome Auth.LoginResult) : Prop :=
  ∃ result, r = Returned result ∧ Auth.valid result = false.

(** The catalogue database with one live session, for the admin. *)
Definition demo_live : DatabaseStorage.t :=
  DatabaseStorage.set_sessions
    (λ _, [ {| s_id := "tok"; s_username := "admin"; s_expiresAt := 1000 |} ])
    demo_catalog.

(** The first release of the catalogue. *)
Definition demo_release : Obj :=
  default ∅ (head (DatabaseStorage.releases demo_catalog)).

(** A call other than an update. *)
Definition no_update (c : StorageCall) : Prop :=
  match c with
  | Update _ _ _ => False
  | _ => True
  end.

(** A call that leaves the [id] field of the records alone: every call
    but an update whose patch sets [id] to another value. *)
Definition keeps_id (c : StorageCall) : Prop :=
  match c with
  | Update _ id upd => upd !! "id" = None ∨ upd !! "id" = Some (JStr id)
  | _ => True
  end.

(** * Properties *)

(** ** Sessions *)

Section Sessions.
Import DatabaseStorage.

Lemma getSession_spec id st :
  getSession id st
  = (Returned (head (List.filter (λ r, bool_decide (s_id r = id)) (sessions st))), st).
Proof. reflexivity. Qed.

Lemma filter_id_after_delete id (rows : list Session) :
  List.filter (λ r, bool_decide (s_id r = id))
    (List.filter (λ r, negb (bool_decide (s_id r = id))) rows) = [].
Proof.
  induction rows as [|r rows IH]; simpl; [done|].
  destruct (bool_decide (s_id r = id)) eqn:E; simpl; [done|].
  by rewrite E.
Qed.

Lemma getSession_after_delete id st :
  (getSession id (deleteSession id st).2).1 = Returned None.
Proof.
  rewrite getSession_spec. simpl. by rewrite filter_id_after_delete.
Qed.

Lemma filter_absent_id id (rows : list Session) :
  List.filter (λ r, bool_decide (s_id r = id)) rows = [] →
  List.filter (λ r, negb (bool_decide (s_id r = id))) rows = rows.
Proof.
  induction rows as [|r rows IH]; simpl; [done|].
  destruct (bool_decide (s_id r = id)) eqn:E; simpl; [done|].
  intros H. by rewrite IH.
Qed.

Lemma head_filter_None {A} (p : A → bool) (l : list A) :
  head (List.filter p l) = None → List.filter p l = [].
Proof. by destruct (List.filter p l). Qed.

Lemma deleteSession_absent id st :
  (getSession id st).1 = Returned None → deleteSession id st = (Returned tt, st).
Proof.
  rewrite getSession_spec. simpl. intros [= H%head_filter_None].
  unfold deleteSession, modify, set_sessions. simpl.
  rewrite filter_absent_id; [|done]. by destruct st.
Qed.
End Sessions.

Section SessionClaims.
Import DatabaseStorage.

Lemma validateSession_cases sessionId now st :
  Auth.validateSession sessionId now st =
    match (getSession sessionId st).1 with
    | Returned (Some session) =>
        if now >? s_expiresAt session
        then (Returned None, (deleteSession sessionId st).2)
        else (Returned (Some (s_username session)), st)
    | _ => (Returned None, st)
    end.
Proof.
  unfold Auth.validateSession, bind. rewrite getSession_spec. simpl.
  destruct (head _) as [session|]; [|done].
  by destruct (now >? s_expiresAt session).
Qed.

(** C4 (as amended). [validateSession s] returns a username exactly when
    a session with id [s] is stored and [now <= expiresAt]; the store is
    then unchanged. With no such session it returns null and changes
    nothing; with a session whose [expiresAt] is strictly before [now] it
    deletes the session and returns null. *)
Theorem C4_validateSession_valid_until_expiresAt (s : string) (now : Z) (st : t) :
  (∀ u, (Auth.validateSession s now st).1 = Returned (Some u)
        ↔ ∃ session, (getSession s st).1 = Returned (Some session)
                     ∧ s_username session = u ∧ now ≤ s_expiresAt session)
  ∧ ((getSession s st).1 = Returned None
     → Auth.validateSession s now st = (Returned None, st))
  ∧ (∀ session, (getSession s st).1 = Returned (Some session)
       → now ≤ s_expiresAt session
       → Auth.validateSession s now st = (Returned (Some (s_username session)), st))
  ∧ (∀ session, (getSession s st).1 = Returned (Some session)
       → s_expiresAt session < now
       → Auth.validateSession s now st = (Returned None, (deleteSession s st).2)
         ∧ (getSession s (deleteSession s st).2).1 = Returned None).
Proof.
  rewrite validateSession_cases.
  destruct (getSession s st).1 as [[session|]|msg] eqn:E.
  - destruct (Z.gtb_spec now (s_expiresAt session)) as [Hgt|Hle].
    + split; [|split; [|split]].
      * intros u. split; [done|].
        intros [session' (Heq & _ & Hle)]. injection Heq as <-. lia.
      * done.
      * intros session' Heq Hle. injection Heq as <-. lia.
      * intros session' _ _. split; [done|]. apply getSession_after_delete.
    + split; [|split; [|split]].
      * intros u. split.
        -- intros Heq. injection Heq as <-. by exists session.
        -- intros [session' (Heq & <- & _)]. by injection Heq as <-.
      * done.
      * intros session' Heq _. by injection Heq as <-.
      * intros session' Heq Hlt. injection Heq as <-. lia.
  - split; [|split; [|split]]; try done.
    intros u. split; [done|]. by intros [session (? & _)].
  - rewrite getSession_spec in E. done.
Qed.

(** C4 fails as stated at the boundary instant: the session ["tok"]
    expires at 1000, so at [now = 1000] it is not valid ([now < expiresAt]
    is false), yet [validateSession] returns its username and keeps it. *)
Lemma C4_counterexample_boundary_instant :
  (getSession "tok" demo_sessions).1
  = Returned (Some {| s_id := "tok"; s_username := "admin"; s_expiresAt := 1000 |})
  ∧ ¬ (1000 < 1000)
  ∧ Auth.validateSession "tok" 1000 demo_sessions
    = (Returned (Some "admin"), demo_sessions).
Proof. split; [reflexivity|]. split; [lia|reflexivity]. Qed.

(** C9. [deleteSession s] completes without an error on every store,
    whether or not [s] is stored; afterwards [validateSession s] is null,
    and a second [deleteSession s] completes as well and changes nothing.
    On a store without [s] the first call changes nothing either. *)
Theorem C9_deleteSession_idempotent (s : string) (now : Z) (st : t) :
  let st' := (Auth.deleteSession s st).2 in
  (Auth.deleteSession s st).1 = Returned tt
  ∧ Auth.validateSession s now st' = (Returned None, st')
  ∧ Auth.deleteSession s st' = (Returned tt, st')
  ∧ ((getSession s st).1 = Returned None → st' = st).
Proof.
  intros st'. split; [done|].
  assert (Hgone : (getSession s st').1 = Returned None)
    by apply getSession_after_delete.
  split.
  { rewrite validateSession_cases. by rewrite Hgone. }
  split.
  { by apply deleteSession_absent. }
  intros Habs. unfold st'. unfold Auth.deleteSession.
  by rewrite deleteSession_absent.
Qed.

(** C8 (as amended). The identifier that [createSession u] generates is
    the random digits [rnd] followed by the clock reading [now] in base
    36. When no stored session has that identifier, [createSession u]
    returns it and adds the session [{id, u, now + 24h}] to the store,
    changing nothing else, and [validateSession] of the identifier at any
    instant up to the expiry returns [u] and changes nothing. When a
    stored session has that identifier, [createSession u] throws and the
    store is unchanged. *)
Theorem C8_createSession_succeeds_unless_id_stored
    (u rnd : string) (now : Z) (st : t) :
  let s := rnd +:+ Auth.toString36 now in
  let session := {| s_id := s; s_username := u;
                    s_expiresAt := now + 24 * 60 * 60 * 1000 |} in
  let out := Auth.createSession u rnd now st in
  match (getSession s st).1 with
  | Returned None =>
      out = (Returned s, set_sessions (λ rows, rows ++ [session]) st)
      ∧ (getSession s out.2).1 = Returned (Some session)
      ∧ ∀ now', now' ≤ now + 24 * 60 * 60 * 1000 →
          Auth.validateSession s now' out.2 = (Returned (Some u), out.2)
  | _ => ∃ error, out = (Thrown error, st)
  end.
Proof.
  intros s session out.
  assert (Hout : out = match (getSession s st).1 with
                       | Returned None =>
                           (Returned s, set_sessions (λ rows, rows ++ [session]) st)
                       | _ => (Thrown "duplicate key value violates unique constraint",
                               st)
                       end).
  { unfold out, Auth.createSession, Auth.generateSessionId, createSession, bind.
    fold s. rewrite getSession_spec. simpl. by destruct (head _). }
  destruct (getSession s st).1 as [[stored|]|msg] eqn:Hstored;
    [by eexists| |by eexists].
  rewrite Hout. clear Hout out.
  rewrite getSession_spec in Hstored. simpl in Hstored.
  injection Hstored as Hnil. apply head_filter_None in Hnil.
  assert (Hget : (getSession s (set_sessions (λ rows, rows ++ [session]) st)).1
                 = Returned (Some session)).
  { rewrite getSession_spec. simpl.
    rewrite List.filter_app, Hnil. simpl. by rewrite bool_decide_eq_true_2. }
  split; [done|]. split; [done|].
  intros now' Hle. simpl. rewrite validateSession_cases, Hget. simpl.
  destruct (Z.gtb_spec now' (now + 24 * 60 * 60 * 1000)); [lia|done].
Qed.

(** C8 fails as stated: [createSession] can fail. With the random digits
    ["k3f9x2"] at the clock reading 1762128000000 it stores the session
    ["k3f9x2mhidiio0"]; a second call that draws the same digits at the
    same clock reading throws. *)
Lemma C8_counterexample_same_draw_twice :
  Auth.createSession "admin" "k3f9x2" 1762128000000 demo_db
  = (Returned "k3f9x2mhidiio0",
     set_sessions (λ _, [ {| s_id := "k3f9x2mhidiio0"; s_username := "admin";
                             s_expiresAt := 1762214400000 |} ]) demo_db)
  ∧ ∃ error,
      (Auth.createSession "admin" "k3f9x2" 1762128000000
         (set_sessions (λ _, [ {| s_id := "k3f9x2mhidiio0"; s_username := "admin";
                                 s_expiresAt := 1762214400000 |} ]) demo_db)).1
      = Thrown error.
Proof. split; [vm_compute; reflexivity|]. eexists. vm_compute. reflexivity. Qed.
End SessionClaims.

(** ** Login attempts and the rate limiter *)

Lemma filter_filter_andb {A} (f g : A → bool) (l : list A) :
  List.filter f (List.filter g l) = List.filter (λ x, g x && f x) l.
Proof.
  induction l as [|x l IH]; simpl; [done|].
  destruct (g x); simpl; [|done]. destruct (f x); by rewrite IH.
Qed.

Lemma failed_attempts_app username (l1 l2 : list LoginAttempt) :
  failed_attempts username (l1 ++ l2)
  = failed_attempts username l1 ++ failed_attempts username l2.
Proof. apply List.filter_app. Qed.

Section Database.
Import DatabaseStorage.
Variable bcrypt_compare : string → string → bool.

(** The number that the deployed rate limiter compares with the
    maximum: every failed attempt for the username, of any age. *)
Lemma isRateLimited_database username now (st : t) :
  Auth.isRateLimited username now st
  = (Returned (5 <=? Z.of_nat (length (failed_attempts username (loginAttempts st)))),
     st).
Proof.
  unfold Auth.isRateLimited, bind. simpl.
  unfold getRecentLoginAttempts, gets, ret.
  by rewrite filter_filter_andb.
Qed.

Lemma recordLoginAttempt_spec attempt now (st : t) :
  recordLoginAttempt attempt now st
  = (Returned (attempt_row st (ila_username attempt) (ila_ipAddress attempt)
                           (ila_successful attempt) now),
     set_loginAttempts
       (λ rows, rows ++ [attempt_row st (ila_username attempt) (ila_ipAddress attempt)
                                     (ila_successful attempt) now]) st).
Proof. reflexivity. Qed.

Lemma getAdminUserByUsername_spec username (st : t) :
  getAdminUserByUsername username st
  = (Returned (head (List.filter (λ r, bool_decide (au_username r = username))
                                 (adminUsers st))), st).
Proof. reflexivity. Qed.

(** The four paths of [validateCredentials] on the database. *)
Lemma validateCredentials_database username password ip now (st : t) :
  Auth.validateCredentials bcrypt_compare username password ip now st =
  let record ok :=
    set_loginAttempts (λ rows, rows ++ [attempt_row st username ip ok now]) st in
  if 5 <=? Z.of_nat (length (failed_attempts username (loginAttempts st))) then
    (Returned {| Auth.valid := false; Auth.message := Some Auth.lockout_message |},
     record false)
  else
    match (getAdminUserByUsername username st).1 with
    | Returned (Some adminUser) =>
        if au_isActive adminUser then
          if bcrypt_compare password (au_passwordHash adminUser) then
            (Returned {| Auth.valid := true; Auth.message := None |},
             (updateAdminLastLogin username now (record true)).2)
          else
            (Returned {| Auth.valid := false;
                         Auth.message := Some "Invalid credentials" |},
             record false)
        else
          (Returned {| Auth.valid := false;
                       Auth.message := Some "Account is inactive" |},
           record false)
    | _ =>
        (Returned {| Auth.valid := false;
                     Auth.message := Some "Invalid credentials" |},
         record false)
    end.
Proof.
  unfold Auth.validateCredentials. unfold bind at 1.
  rewrite isRateLimited_database.
  destruct (5 <=? _); [reflexivity|].
  unfold bind at 1. simpl getAdminUserByUsername.
  rewrite getAdminUserByUsername_spec. simpl.
  destruct (head _) as [adminUser|]; [|reflexivity].
  destruct (au_isActive adminUser); simpl; [|reflexivity].
  unfold bind at 1. simpl recordLoginAttempt. rewrite recordLoginAttempt_spec. simpl.
  destruct (bcrypt_compare password (au_passwordHash adminUser)); reflexivity.
Qed.
End Database.

Section Credentials.
Import DatabaseStorage.
Variable bcrypt_compare : string → string → bool.

(** C2. Every call of [validateCredentials] returns (it does not throw)
    and leaves the login attempts of the store extended by exactly one
    row, for the given username and address, at the time of the call. On
    the lockout path, the unknown-username path and the inactive-account
    path the row is a failed attempt; on the password path its
    [successful] flag is the outcome of [bcrypt.compare], which is also
    the [valid] flag of the result. *)
Theorem C2_validateCredentials_records_one_attempt
    (username password : string) (ip : option string) (now : Z) (st : t) :
  ∃ result row,
    (Auth.validateCredentials bcrypt_compare username password ip now st).1
    = Returned result
    ∧ loginAttempts
        (Auth.validateCredentials bcrypt_compare username password ip now st).2
      = loginAttempts st ++ [row]
    ∧ la_username row = username ∧ la_ipAddress row = ip ∧ la_attemptedAt row = now
    ∧ ((Auth.isRateLimited username now st).1 = Returned true →
       la_successful row = false)
    ∧ ((Auth.isRateLimited username now st).1 = Returned false →
       (getAdminUserByUsername username st).1 = Returned None →
       la_successful row = false)
    ∧ (∀ adminUser,
         (Auth.isRateLimited username now st).1 = Returned false →
         (getAdminUserByUsername username st).1 = Returned (Some adminUser) →
         au_isActive adminUser = false →
         la_successful row = false)
    ∧ (∀ adminUser,
         (Auth.isRateLimited username now st).1 = Returned false →
         (getAdminUserByUsername username st).1 = Returned (Some adminUser) →
         au_isActive adminUser = true →
         la_successful row = bcrypt_compare password (au_passwordHash adminUser)
         ∧ Auth.valid result = bcrypt_compare password (au_passwordHash adminUser)).
Proof.
  rewrite validateCredentials_database, isRateLimited_database. cbv zeta.
  destruct (5 <=? _) eqn:Hlim.
  { eexists _, (attempt_row st username ip false now). simpl.
    repeat split; try done; intros; discriminate. }
  destruct (getAdminUserByUsername username st).1 as [[adminUser|]|msg] eqn:Hget;
    [|..|by rewrite getAdminUserByUsername_spec in Hget];
    [destruct (au_isActive adminUser) eqn:Hact;
       [destruct (bcrypt_compare password (au_passwordHash adminUser)) eqn:Hpw|]|];
    eexists _, (attempt_row st username ip _ now); simpl;
    (split; [reflexivity|]); (split; [reflexivity|]);
    repeat split; try done; intros; simplify_eq; simpl; congruence.
Qed.
End Credentials.

Section CredentialsInMemory.
Import MemStorage.
Variable bcrypt_compare : string → string → bool.

Lemma updateAdminLastLogin_memory_attempts username now (st : t) :
  ∃ st', updateAdminLastLogin username now st = (Returned tt, st')
         ∧ loginAttempts st' = loginAttempts st.
Proof.
  unfold updateAdminLastLogin, bind, getAdminUserByUsername, gets. simpl.
  destruct (List.find _ _); by eexists.
Qed.

(** The same function on [MemStorage] also adds one row per call. *)
Lemma validateCredentials_memory_records_one_attempt
    username password ip now (st : t) :
  ∃ result row,
    (Auth.validateCredentials bcrypt_compare username password ip now st).1
    = Returned result
    ∧ loginAttempts
        (Auth.validateCredentials bcrypt_compare username password ip now st).2
      = loginAttempts st ++ [row]
    ∧ la_username row = username ∧ la_ipAddress row = ip.
Proof.
  assert (Hone : ∀ (result : Auth.LoginResult) ok,
    ∃ result' row,
      Returned result = Returned result'
      ∧ loginAttempts st
        ++ [ {| la_id := Z.of_nat (length (loginAttempts st)) + 1;
                la_username := username; la_ipAddress := ip;
                la_successful := ok; la_attemptedAt := now |} ]
        = loginAttempts st ++ [row]
      ∧ la_username row = username ∧ la_ipAddress row = ip)
    by (intros; by eexists _, _).
  unfold Auth.validateCredentials, Auth.isRateLimited, bind. simpl.
  unfold getRecentLoginAttempts, getAdminUserByUsername, gets, ret. simpl.
  destruct (Auth.MAX_LOGIN_ATTEMPTS <=? _); simpl; [apply Hone|].
  destruct (List.find _ _) as [adminUser|]; simpl; [|apply Hone].
  destruct (au_isActive adminUser); simpl; [|apply Hone].
  destruct (bcrypt_compare password (au_passwordHash adminUser)); simpl;
    [|apply Hone].
  match goal with
  | |- context [updateAdminLastLogin username now ?st0] =>
      destruct (updateAdminLastLogin_memory_attempts username now st0)
        as (st' & -> & Hkeep)
  end.
  simpl. rewrite Hkeep. apply Hone.
Qed.
End CredentialsInMemory.

Section RateLimit.
Import DatabaseStorage.
Variable bcrypt_compare : string → string → bool.

(** No request removes or changes a stored login attempt. *)
Lemma perform_database_appends c now (st : t) :
  ∃ extra, loginAttempts (perform c now st).2 = loginAttempts st ++ extra.
Proof.
  destruct c; simpl; try (by exists []; rewrite app_nil_r).
  - unfold createAdminUser, bind. rewrite getAdminUserByUsername_spec. simpl.
    destruct (head _); exists []; by rewrite app_nil_r.
  - by eexists [_].
  - unfold create, bind, gets. simpl.
    destruct (List.filter _ _); exists []; by rewrite app_nil_r.
  - unfold update. destruct (no_values _); exists []; by rewrite app_nil_r.
Qed.

Lemma validateSession_loginAttempts s now (st : t) :
  loginAttempts (Auth.validateSession s now st).2 = loginAttempts st.
Proof.
  unfold Auth.validateSession, bind, getSession. simpl.
  destruct (head _) as [session|]; [|done].
  by destruct (now >? s_expiresAt session).
Qed.

Lemma validateCredentials_appends username password ip now (st : t) :
  ∃ extra,
    loginAttempts
      (Auth.validateCredentials bcrypt_compare username password ip now st).2
    = loginAttempts st ++ extra.
Proof.
  rewrite validateCredentials_database. cbv zeta.
  destruct (5 <=? _); [by eexists [_]|].
  destruct (getAdminUserByUsername username st).1 as [[adminUser|]|msg];
    [|by eexists [_]..].
  destruct (au_isActive adminUser); [|by eexists [_]].
  destruct (bcrypt_compare _ _); by eexists [_].
Qed.

Lemma serve_appends r now (st : t) :
  ∃ extra, loginAttempts (serve bcrypt_compare r now st) = loginAttempts st ++ extra.
Proof.
  destruct r; simpl; try (by exists []; rewrite app_nil_r).
  - apply perform_database_appends.
  - unfold createSession, bind, getSession. simpl.
    destruct (head _); exists []; by rewrite app_nil_r.
  - unfold Auth.createSession, createSession, bind, getSession. simpl.
    destruct (head _); exists []; by rewrite app_nil_r.
  - exists []. by rewrite validateSession_loginAttempts, app_nil_r.
  - apply validateCredentials_appends.
Qed.

Lemma serve_all_appends rs (st : t) :
  ∃ extra,
    loginAttempts (serve_all bcrypt_compare rs st) = loginAttempts st ++ extra.
Proof.
  unfold serve_all. revert st.
  induction rs as [|[r now] rs IH]; intros st; simpl.
  - exists []. by rewrite app_nil_r.
  - destruct (IH (serve bcrypt_compare r now st)) as [extra2 H2].
    destruct (serve_appends r now st) as [extra1 H1].
    exists (extra1 ++ extra2). by rewrite H2, H1, <- app_assoc.
Qed.

(** Requests never lower the number of failed attempts of a username. *)
Lemma failed_attempts_serve_all username rs (st : t) :
  (length (failed_attempts username (loginAttempts st))
   ≤ length (failed_attempts username
               (loginAttempts (serve_all bcrypt_compare rs st))))%nat.
Proof.
  destruct (serve_all_appends rs st) as [extra ->].
  rewrite failed_attempts_app, length_app. lia.
Qed.

(** C6. On the database storage, once five failed login attempts are
    stored for a username, of whatever age, then after any sequence of
    further requests at any times, [validateCredentials] for that
    username with any password and address returns [valid = false] with
    the lockout message and adds one more failed attempt. *)
Theorem C6_database_lockout_is_permanent
    (username : string) (st : t) (rs : list (Request * Z))
    (password : string) (ip : option string) (now : Z) :
  5 ≤ Z.of_nat (length (failed_attempts username (loginAttempts st))) →
  let st' := serve_all bcrypt_compare rs st in
  Auth.validateCredentials bcrypt_compare username password ip now st'
  = (Returned {| Auth.valid := false; Auth.message := Some Auth.lockout_message |},
     set_loginAttempts (λ rows, rows ++ [attempt_row st' username ip false now]) st').
Proof.
  intros Hfive st'. rewrite validateCredentials_database. cbv zeta.
  pose proof (failed_attempts_serve_all username rs st) as Hmono. fold st' in Hmono.
  destruct (Z.leb_spec 5
              (Z.of_nat (length (failed_attempts username (loginAttempts st')))))
    as [_|Hlt]; [done|lia].
Qed.
End RateLimit.

(** Five failed attempts at time 0, then other requests: the correct
    password is still refused a day later. *)
Lemma C6_database_lockout_is_permanent_witness :
  let st' :=
    serve_all demo_compare
      [ (ValidateSession "tok", 1000);
        (OnStorage (GetRecentLoginAttempts "admin" 15), 2000);
        (ValidateCredentials "guest" "x" None, 3000);
        (StorageDeleteExpiredSessions, 4000) ] demo_locked in
  Auth.validateCredentials demo_compare "admin" "secret123" None 86400000 st'
  = (Returned {| Auth.valid := false; Auth.message := Some Auth.lockout_message |},
     DatabaseStorage.set_loginAttempts
       (λ rows, rows ++ [attempt_row st' "admin" None false 86400000]) st').
Proof.
  apply (C6_database_lockout_is_permanent demo_compare "admin" demo_locked).
  vm_compute. discriminate.
Defined.

Section Indistinguishable.
Import DatabaseStorage.
Variable bcrypt_compare : string → string → bool.

(** C7 (as amended). Take a username with no AdminUser row and an
    existing active AdminUser given a wrong password. Neither being
    locked out, [validateCredentials] returns for both the same value,
    [valid = false] with the message "Invalid credentials"; being locked
    out, either gets [valid = false] with the lockout message. In both
    cases the result depends on the lockout alone. *)
Theorem C7_unknown_user_and_wrong_password_alike
    (unknown known password1 password2 : string) (ip1 ip2 : option string)
    (now1 now2 : Z) (st1 st2 : t) (adminUser : AdminUser) :
  (getAdminUserByUsername unknown st1).1 = Returned None →
  (getAdminUserByUsername known st2).1 = Returned (Some adminUser) →
  au_isActive adminUser = true →
  bcrypt_compare password2 (au_passwordHash adminUser) = false →
  let answer (limited : bool) :=
    {| Auth.valid := false;
       Auth.message := Some (if limited then Auth.lockout_message
                             else "Invalid credentials") |} in
  (∀ limited, (Auth.isRateLimited unknown now1 st1).1 = Returned limited →
     (Auth.validateCredentials bcrypt_compare unknown password1 ip1 now1 st1).1
     = Returned (answer limited))
  ∧ (∀ limited, (Auth.isRateLimited known now2 st2).1 = Returned limited →
       (Auth.validateCredentials bcrypt_compare known password2 ip2 now2 st2).1
       = Returned (answer limited))
  ∧ ((Auth.isRateLimited unknown now1 st1).1 = Returned false →
     (Auth.isRateLimited known now2 st2).1 = Returned false →
     (Auth.validateCredentials bcrypt_compare unknown password1 ip1 now1 st1).1
     = (Auth.validateCredentials bcrypt_compare known password2 ip2 now2 st2).1
     ∧ (Auth.validateCredentials bcrypt_compare known password2 ip2 now2 st2).1
       = Returned {| Auth.valid := false;
                     Auth.message := Some "Invalid credentials" |}).
Proof.
  intros Hnone Hsome Hact Hpw answer.
  rewrite !validateCredentials_database, !isRateLimited_database. cbv zeta.
  rewrite Hnone, Hsome, Hact, Hpw. simpl.
  split; [|split].
  - intros limited [= <-]. by destruct (5 <=? _).
  - intros limited [= <-]. by destruct (5 <=? _).
  - intros [= ->] [= ->]. done.
Qed.
End Indistinguishable.

Lemma C7_unknown_user_and_wrong_password_alike_witness :
  let answer (limited : bool) :=
    {| Auth.valid := false;
       Auth.message := Some (if limited then Auth.lockout_message
                             else "Invalid credentials") |} in
  (∀ limited, (Auth.isRateLimited "ghost" 1000 demo_db).1 = Returned limited →
     (Auth.validateCredentials demo_compare "ghost" "x" None 1000 demo_db).1
     = Returned (answer limited))
  ∧ (∀ limited, (Auth.isRateLimited "admin" 2000 demo_db).1 = Returned limited →
       (Auth.validateCredentials demo_compare "admin" "wrongpassword" None 2000 demo_db).1
       = Returned (answer limited))
  ∧ ((Auth.isRateLimited "ghost" 1000 demo_db).1 = Returned false →
     (Auth.isRateLimited "admin" 2000 demo_db).1 = Returned false →
     (Auth.validateCredentials demo_compare "ghost" "x" None 1000 demo_db).1
     = (Auth.validateCredentials demo_compare "admin" "wrongpassword" None 2000 demo_db).1
     ∧ (Auth.validateCredentials demo_compare "admin" "wrongpassword" None 2000 demo_db).1
       = Returned {| Auth.valid := false;
                     Auth.message := Some "Invalid credentials" |}).
Proof.
  apply (C7_unknown_user_and_wrong_password_alike demo_compare
           "ghost" "admin" "x" "wrongpassword" None None 1000 2000
           demo_db demo_db demo_admin); reflexivity.
Defined.

(** C7 fails as stated once the existing user is locked out: with five
    failed attempts stored for ["admin"], a wrong password for that
    active user gets the lockout message, while the unknown ["ghost"]
    gets "Invalid credentials". *)
Lemma C7_counterexample_locked_out_user :
  (DatabaseStorage.getAdminUserByUsername "ghost" demo_locked).1 = Returned None
  ∧ (DatabaseStorage.getAdminUserByUsername "admin" demo_locked).1
    = Returned (Some demo_admin)
  ∧ au_isActive demo_admin = true
  ∧ demo_compare "wrongpassword" (au_passwordHash demo_admin) = false
  ∧ (Auth.validateCredentials demo_compare "ghost" "x" None 1000 demo_locked).1
    = Returned {| Auth.valid := false; Auth.message := Some "Invalid credentials" |}
  ∧ (Auth.validateCredentials demo_compare "admin" "wrongpassword" None 1000 demo_locked).1
    = Returned {| Auth.valid := false;
                  Auth.message := Some "Too many failed login attempts. Please try again in 15 minutes." |}
  ∧ (Auth.validateCredentials demo_compare "ghost" "x" None 1000 demo_locked).1
    ≠ (Auth.validateCredentials demo_compare "admin" "wrongpassword" None 1000 demo_locked).1.
Proof. repeat split; try reflexivity. vm_compute. discriminate. Qed.

(** ** The rate-limit window *)

(** C1, on the deployed storage. Five failed attempts for ["admin"] lie
    an hour back, so none lies in the 15 minutes before the call and the
    specified decision is "not locked out"; [isRateLimited] answers
    "locked out" all the same, and the correct password is refused. *)
Theorem C1_database_counts_attempts_outside_window :
  failed_in_window "admin" 3600000 (DatabaseStorage.loginAttempts demo_locked) = 0
  ∧ spec_isRateLimited "admin" 3600000 (DatabaseStorage.loginAttempts demo_locked)
    = false
  ∧ (Auth.isRateLimited "admin" 3600000 demo_locked).1 = Returned true
  ∧ (Auth.validateCredentials demo_compare "admin" "secret123" None 3600000
       demo_locked).1
    = Returned {| Auth.valid := false; Auth.message := Some Auth.lockout_message |}.
Proof. repeat split; reflexivity. Qed.

Section MemWindow.
Import MemStorage.

(** The sibling implementation does apply the window: on past
    attempts, [MemStorage] locks out exactly as specified. *)
Lemma isRateLimited_memory username now (st : t) :
  Forall (λ r, la_attemptedAt r ≤ now) (loginAttempts st) →
  Auth.isRateLimited username now st
  = (Returned (spec_isRateLimited username now (loginAttempts st)), st).
Proof.
  intros Hpast.
  unfold Auth.isRateLimited, bind. simpl.
  unfold getRecentLoginAttempts, gets, ret.
  unfold spec_isRateLimited, failed_in_window, failed_attempts, Auth.MAX_LOGIN_ATTEMPTS.
  rewrite !filter_filter_andb.
  replace (List.filter _ (loginAttempts st))
    with (List.filter
            (λ r, (bool_decide (la_username r = username) && negb (la_successful r))
                  && in_window now 15 (la_attemptedAt r)) (loginAttempts st));
    [done|].
  induction Hpast as [|r rows Hr _ IH]; simpl; [done|].
  rewrite IH. unfold in_window, Auth.ATTEMPT_WINDOW_MINUTES.
  replace (la_attemptedAt r <=? now) with true by (symmetry; by apply Z.leb_le).
  rewrite andb_true_r.
  by destruct (bool_decide _), (la_successful r), (_ <=? la_attemptedAt r).
Qed.
End MemWindow.

(** ** Content tables *)

Lemma Map_set_fresh {V} (k : string) (v : V) (m : JsMap V) :
  k ∉ m.*1 → Map_set k v m = m ++ [(k, v)].
Proof.
  induction m as [|[k' v'] m IH]; simpl; [done|].
  intros Hk. apply not_elem_of_cons in Hk as [Hne Hk].
  rewrite bool_decide_eq_false_2 by done. by rewrite IH.
Qed.

Lemma set_each_fresh (items : list Obj) (ids : list string) (m : JsMap Obj) :
  Forall2 (λ x id, prop x "id" = JStr id) items ids →
  NoDup (m.*1 ++ ids) →
  MemStorage.set_each items m = m ++ zip ids items.
Proof.
  unfold MemStorage.set_each. intros Hids. revert m.
  induction Hids as [|x id items ids Hx _ IH]; intros m Hnodup; simpl.
  { by rewrite app_nil_r. }
  rewrite Hx.
  apply NoDup_app in Hnodup as (Hm & Hdisj & Hnd).
  apply NoDup_cons in Hnd as [Hid Hnd].
  rewrite Map_set_fresh.
  2:{ intros Hin. apply (Hdisj _ Hin). left. }
  rewrite IH, <- app_assoc; [done|].
  rewrite fmap_app. simpl. apply NoDup_app. split; [|split; [|done]].
  - apply NoDup_app. split; [done|]. split; [|apply NoDup_singleton].
    intros k Hk ->%list_elem_of_singleton. apply (Hdisj _ Hk). left.
  - intros k [Hk| ->%list_elem_of_singleton]%elem_of_app Hin; [|done].
    apply (Hdisj _ Hk). by right.
Qed.

Lemma set_each_seed (items : list Obj) (ids : list string) :
  Forall2 (λ x id, prop x "id" = JStr id) items ids →
  NoDup ids →
  Map_values (MemStorage.set_each items []) = items.
Proof.
  intros Hids Hnd. rewrite (set_each_fresh items ids); [|done..].
  simpl. unfold Map_values. apply snd_zip.
  apply Forall2_length in Hids. lia.
Qed.

Lemma coll_set_coll_mem e e' f (st : MemStorage.t) :
  MemStorage.coll e' (MemStorage.set_coll e f st)
  = if decide (e' = e) then f (MemStorage.coll e' st) else MemStorage.coll e' st.
Proof. by destruct e, e'. Qed.

Section Seeds.
Import MemStorage.
Variable uuid : nat → string.
Variable now : Z.

Ltac seed_ids := repeat constructor; vm_compute; reflexivity.

Lemma seedArtists_ids :
  Forall2 (λ x id, prop x "id" = JStr id) (seedArtists uuid now)
          (uuid <$> [0; 1; 2]%nat).
Proof. seed_ids. Qed.

Lemma seedReleases_ids :
  Forall2 (λ x id, prop x "id" = JStr id) (seedReleases uuid now)
          (uuid <$> [3; 4; 5]%nat).
Proof. seed_ids. Qed.

Lemma seedEvents_ids :
  Forall2 (λ x id, prop x "id" = JStr id) (seedEvents uuid now)
          (uuid <$> [6; 7]%nat).
Proof. seed_ids. Qed.

Lemma seedPosts_ids :
  Forall2 (λ x id, prop x "id" = JStr id) (seedPosts uuid now)
          (uuid <$> [8; 9]%nat).
Proof. seed_ids. Qed.

Lemma seedShows_ids :
  Forall2 (λ x id, prop x "id" = JStr id) (seedShows uuid now)
          (uuid <$> [10; 11]%nat).
Proof. seed_ids. Qed.
End Seeds.

Section FreshMemStorage.
Import MemStorage.

(** C10. A freshly constructed [MemStorage] holds the demo content: when
    the identifiers drawn for the records of one table are distinct,
    [getAllArtists] returns the 3 seed artists, [getAllReleases] the 3
    seed releases, [getAllEvents] the 2 seed events, [getAllPosts] the 2
    seed posts and [getAllRadioShows] the 2 seed shows, while
    [getAllContacts], [getAllPlaylists] and [getAllVideos] return the
    empty list. *)
Theorem C10_fresh_MemStorage_holds_demo_content (uuid : nat → string) (now : Z) :
  NoDup (uuid <$> [0; 1; 2]%nat) →
  NoDup (uuid <$> [3; 4; 5]%nat) →
  NoDup (uuid <$> [6; 7]%nat) →
  NoDup (uuid <$> [8; 9]%nat) →
  NoDup (uuid <$> [10; 11]%nat) →
  let st := new uuid now in
  (getAllArtists st = (Returned (seedArtists uuid now), st)
   ∧ length (seedArtists uuid now) = 3%nat)
  ∧ (getAllReleases st = (Returned (seedReleases uuid now), st)
     ∧ length (seedReleases uuid now) = 3%nat)
  ∧ (getAllEvents st = (Returned (seedEvents uuid now), st)
     ∧ length (seedEvents uuid now) = 2%nat)
  ∧ (getAllPosts st = (Returned (seedPosts uuid now), st)
     ∧ length (seedPosts uuid now) = 2%nat)
  ∧ (getAllRadioShows st = (Returned (seedShows uuid now), st)
     ∧ length (seedShows uuid now) = 2%nat)
  ∧ getAllContacts st = (Returned [], st)
  ∧ getAllPlaylists st = (Returned [], st)
  ∧ getAllVideos st = (Returned [], st).
Proof.
  intros Ha Hr He Hp Hs st.
  assert (Hall : ∀ e, getAll e st
                      = (Returned (Map_values (coll e st)), st)) by done.
  unfold getAllArtists, getAllReleases, getAllEvents, getAllPosts,
    getAllRadioShows, getAllContacts, getAllPlaylists, getAllVideos.
  rewrite !Hall. unfold st, new, seedData. rewrite !coll_set_coll_mem.
  repeat first [rewrite decide_True by reflexivity
               | rewrite decide_False by discriminate].
  cbn [coll empty releases events posts contacts artists radioShows playlists videos].
  rewrite (set_each_seed _ _ (seedArtists_ids uuid now) Ha),
    (set_each_seed _ _ (seedReleases_ids uuid now) Hr),
    (set_each_seed _ _ (seedEvents_ids uuid now) He),
    (set_each_seed _ _ (seedPosts_ids uuid now) Hp),
    (set_each_seed _ _ (seedShows_ids uuid now) Hs).
  repeat split; reflexivity.
Qed.
End FreshMemStorage.

Lemma C10_fresh_MemStorage_holds_demo_content_witness :
  let st := demo_mem in
  (MemStorage.getAllArtists st = (Returned (MemStorage.seedArtists demo_uuid 0), st)
   ∧ length (MemStorage.seedArtists demo_uuid 0) = 3%nat)
  ∧ (MemStorage.getAllReleases st = (Returned (MemStorage.seedReleases demo_uuid 0), st)
     ∧ length (MemStorage.seedReleases demo_uuid 0) = 3%nat)
  ∧ (MemStorage.getAllEvents st = (Returned (MemStorage.seedEvents demo_uuid 0), st)
     ∧ length (MemStorage.seedEvents demo_uuid 0) = 2%nat)
  ∧ (MemStorage.getAllPosts st = (Returned (MemStorage.seedPosts demo_uuid 0), st)
     ∧ length (MemStorage.seedPosts demo_uuid 0) = 2%nat)
  ∧ (MemStorage.getAllRadioShows st = (Returned (MemStorage.seedShows demo_uuid 0), st)
     ∧ length (MemStorage.seedShows demo_uuid 0) = 2%nat)
  ∧ MemStorage.getAllContacts st = (Returned [], st)
  ∧ MemStorage.getAllPlaylists st = (Returned [], st)
  ∧ MemStorage.getAllVideos st = (Returned [], st).
Proof.
  apply (C10_fresh_MemStorage_holds_demo_content demo_uuid 0);
    apply (bool_decide_unpack _); vm_compute; exact I.
Defined.

(** ** Update of an unknown id *)

Lemma set_coll_same_database e f (st : DatabaseStorage.t) :
  f (DatabaseStorage.coll e st) = DatabaseStorage.coll e st →
  DatabaseStorage.set_coll e f st = st.
Proof.
  intros H. destruct e, st; unfold DatabaseStorage.set_coll; simpl in *;
    congruence.
Qed.

Lemma fmap_unless_hit {A} (hit : A → bool) (f : A → A) (rows : list A) :
  List.filter hit rows = [] →
  (λ r, if hit r then f r else r) <$> rows = rows.
Proof.
  induction rows as [|r rows IH]; [done|].
  rewrite fmap_cons. simpl. destruct (hit r); [done|].
  intros H. f_equal. by apply IH.
Qed.

(** [DatabaseStorage]: with no row of that id, [updateX] with a value
    to set returns [undefined] and writes nothing. *)
Lemma database_update_unknown_id e id upd (st : DatabaseStorage.t) :
  DatabaseStorage.no_values (defined upd) = false →
  (DatabaseStorage.getById e id st).1 = Returned None →
  DatabaseStorage.update e id upd st = (Returned None, st).
Proof.
  unfold DatabaseStorage.getById, DatabaseStorage.update. intros ->.
  unfold bind, gets, ret, modify.
  simpl. intros [= Hnil]. 
  destruct (List.filter (DatabaseStorage.has_id id) (DatabaseStorage.coll e st))
    eqn:Hrows; [|done].
  simpl. rewrite set_coll_same_database; [done|]. by apply fmap_unless_hit.
Qed.

(** [MemStorage]: with no record under that id, [updateX] throws the
    not-found error and writes nothing. *)
Lemma memory_update_unknown_id e id upd (st : MemStorage.t) :
  (MemStorage.getById e id st).1 = Returned None →
  MemStorage.update e id upd st = (Thrown (not_found_message e), st).
Proof.
  unfold MemStorage.getById, MemStorage.update, bind, gets. simpl.
  by intros [= ->].
Qed.

(** C5, on the deployed storage. No table of [demo_catalog] has a row
    with id ["missing"]; for every content table, [DatabaseStorage]'s
    update of that id returns [undefined] as its record and reports no
    error, where [MemStorage]'s update throws the not-found error. *)
Theorem C5_database_update_of_unknown_id_returns_undefined (e : Entity) :
  (DatabaseStorage.getById e "missing" demo_catalog).1 = Returned None
  ∧ DatabaseStorage.update e "missing" demo_patch demo_catalog
    = (Returned None, demo_catalog)
  ∧ MemStorage.update e "missing" demo_patch demo_mem
    = (Thrown (not_found_message e), demo_mem).
Proof.
  assert (Hdb : (DatabaseStorage.getById e "missing" demo_catalog).1 = Returned None)
    by (destruct e; vm_compute; reflexivity).
  assert (Hmem : (MemStorage.getById e "missing" demo_mem).1 = Returned None)
    by (destruct e; vm_compute; reflexivity).
  split; [done|]. split.
  - by apply database_update_unknown_id.
  - by apply memory_update_unknown_id.
Qed.

(** ** The two storages side by side *)

(** On the rows they share the two storages list the same records. *)
Lemma getAll_to_database e now (m : MemStorage.t) :
  (perform (GetAll e) now m).1 = (perform (GetAll e) now (to_database m)).1.
Proof. by destruct e. Qed.

(** C3, by two runs. On a fresh [MemStorage] and the database with the
    same rows, the update of an unknown release throws on the first and
    returns [undefined] on the second; and after the same failed login at
    time 0, the attempts of the last 15 minutes asked for an hour later
    are none on the first and the old attempt on the second. *)
Theorem C3_storages_answer_differently :
  let update := [(Update Release "missing" demo_patch, 10)] in
  let attempts :=
    [ (RecordLoginAttempt (Auth.failed "admin" None), 0);
      (GetRecentLoginAttempts "admin" 15, 3600000) ] in
  (perform_all [(GetAll Release, 10)] demo_mem).1
  = (perform_all [(GetAll Release, 10)] demo_catalog).1
  ∧ (perform_all update demo_mem).1 = [Thrown "Release not found"]
  ∧ (perform_all update demo_catalog).1 = [Returned (AnsRecord None)]
  ∧ (perform_all attempts demo_mem).1
    = [ Returned (AnsLoginAttempts [failed_row 1 "admin" 0]);
        Returned (AnsLoginAttempts []) ]
  ∧ (perform_all attempts demo_catalog).1
    = [ Returned (AnsLoginAttempts [failed_row 1 "admin" 0]);
        Returned (AnsLoginAttempts [failed_row 1 "admin" 0]) ].
Proof. repeat split; vm_compute; reflexivity. Qed.

(** * Further properties of the code *)

(** ** Sessions: what validation and the sweep change *)

Section SessionStore.
Import DatabaseStorage.

Lemma set_sessions_sessions (st : t) : set_sessions (λ _, sessions st) st = st.
Proof. by destruct st. Qed.

Lemma filter_other_id (id id' : string) (rows : list Session) :
  id' ≠ id →
  List.filter (λ r, bool_decide (s_id r = id'))
    (List.filter (λ r, negb (bool_decide (s_id r = id))) rows)
  = List.filter (λ r, bool_decide (s_id r = id')) rows.
Proof.
  intros Hne. induction rows as [|r rows IH]; simpl; [done|].
  destruct (bool_decide_reflect (s_id r = id)) as [Heq|Hneq]; simpl.
  - rewrite bool_decide_eq_false_2 by congruence. done.
  - destruct (bool_decide (s_id r = id')); by rewrite IH.
Qed.

Lemma validateSession_answer_keeps_store (s u : string) (now : Z) (st : t) :
  (Auth.validateSession s now st).1 = Returned (Some u) →
  (Auth.validateSession s now st).2 = st.
Proof.
  rewrite validateSession_cases.
  destruct (getSession s st).1 as [[session|]|msg]; [|done..].
  by destruct (now >? s_expiresAt session).
Qed.

Lemma validateSession_only_sessions (s : string) (now : Z) (st : t) :
  ∃ rows, (Auth.validateSession s now st).2 = set_sessions (λ _, rows) st.
Proof.
  rewrite validateSession_cases.
  destruct (getSession s st).1 as [[session|]|msg];
    [|exists (sessions st); by rewrite set_sessions_sessions..].
  destruct (now >? s_expiresAt session); [by eexists|].
  exists (sessions st). by rewrite set_sessions_sessions.
Qed.

(** X1. [validateSession s] changes nothing but the sessions table, and
    there nothing but the rows with id [s]: the lookup of any other id
    is as before. Whenever it answers null, no session is left under
    [s]; whenever it answers a username, the store is unchanged. *)
Theorem validateSession_touches_only_its_session (s : string) (now : Z) (st : t) :
  let out := Auth.validateSession s now st in
  (∃ rows, out.2 = set_sessions (λ _, rows) st)
  ∧ (∀ s', s' ≠ s → getSession s' out.2 = (((getSession s' st).1), out.2))
  ∧ (out.1 = Returned None → (getSession s out.2).1 = Returned None)
  ∧ (∀ u, out.1 = Returned (Some u) → out.2 = st).
Proof.
  cbv zeta. rewrite validateSession_cases.
  destruct (getSession s st).1 as [[session|]|msg] eqn:E.
  - destruct (now >? s_expiresAt session).
    + split; [by eexists|]. split; [|split; [|done]].
      * intros s' Hne. rewrite !getSession_spec. simpl.
        by rewrite filter_other_id.
      * intros _. apply getSession_after_delete.
    + split; [exists (sessions st); by rewrite set_sessions_sessions|].
      by repeat split.
  - split; [exists (sessions st); by rewrite set_sessions_sessions|].
    by repeat split.
  - by rewrite getSession_spec in E.
Qed.

Lemma filter_id_sweep (id : string) (now : Z) (rows : list Session) :
  NoDup (s_id <$> rows) →
  head (List.filter (λ r, bool_decide (s_id r = id))
          (List.filter (λ r, negb (s_expiresAt r <? now)) rows))
  = match head (List.filter (λ r, bool_decide (s_id r = id)) rows) with
    | Some r => if now >? s_expiresAt r then None else Some r
    | None => None
    end.
Proof.
  induction rows as [|r rows IH]; [done|].
  rewrite fmap_cons, NoDup_cons. intros [Hr Hnd]. simpl.
  destruct (bool_decide_reflect (s_id r = id)) as [Heq|Hneq]; simpl.
  - assert (Hnone : ∀ rows', rows' ⊆ rows →
              List.filter (λ r0, bool_decide (s_id r0 = id)) rows' = []).
    { intros rows' Hsub. induction rows' as [|r' rows' IH']; [done|]. simpl.
      rewrite bool_decide_eq_false_2.
      - apply IH'. intros x Hx. apply Hsub. by right.
      - intros Heq'. apply Hr. rewrite Heq, <- Heq'.
        apply list_elem_of_fmap_2, Hsub. left. }
    rewrite Z.gtb_ltb.
    destruct (s_expiresAt r <? now); simpl.
    + rewrite Hnone; [done|]. intros x Hx.
      by apply list_elem_of_In, List.filter_In in Hx as [?%list_elem_of_In _].
    + by rewrite bool_decide_eq_true_2.
  - destruct (s_expiresAt r <? now); simpl; [by apply IH|].
    rewrite bool_decide_eq_false_2 by done. by apply IH.
Qed.

(** X2. [deleteExpiredSessions] and [validateSession] agree on what is
    expired: on a sessions table with distinct ids, sweeping at [now]
    changes the answer of [validateSession] at [now] for no id, and
    after the sweep no stored session has its expiry before [now]. *)
Theorem deleteExpiredSessions_invisible_to_validateSession (now : Z) (st : t) :
  NoDup (s_id <$> sessions st) →
  let swept := (deleteExpiredSessions now st).2 in
  (∀ s, (Auth.validateSession s now swept).1 = (Auth.validateSession s now st).1)
  ∧ Forall (λ r, now ≤ s_expiresAt r) (sessions swept)
  ∧ (∀ r, r ∈ sessions st → now ≤ s_expiresAt r → r ∈ sessions swept).
Proof.
  intros Hnd swept. split; [|split].
  - intros s. rewrite !validateSession_cases, !getSession_spec. simpl.
    rewrite filter_id_sweep by done.
    destruct (head _) as [r|]; [|done].
    destruct (Z.gtb_spec now (s_expiresAt r)); [done|]. simpl.
    destruct (Z.gtb_spec now (s_expiresAt r)); [lia|done].
  - simpl. apply Forall_forall. intros r Hr.
    apply list_elem_of_In, List.filter_In in Hr as [_ Hr].
    apply negb_true_iff, Z.ltb_ge in Hr. done.
  - intros r Hr Hle. simpl. apply list_elem_of_In, List.filter_In.
    split; [by apply list_elem_of_In|]. apply negb_true_iff, Z.ltb_ge. done.
Qed.

Lemma deleteExpiredSessions_invisible_to_validateSession_witness :
  let swept := (deleteExpiredSessions 1001 demo_sessions).2 in
  (∀ s, (Auth.validateSession s 1001 swept).1
        = (Auth.validateSession s 1001 demo_sessions).1)
  ∧ Forall (λ r, 1001 ≤ s_expiresAt r) (sessions swept)
  ∧ (∀ r, r ∈ sessions demo_sessions → 1001 ≤ s_expiresAt r → r ∈ sessions swept).
Proof.
  apply (deleteExpiredSessions_invisible_to_validateSession 1001 demo_sessions).
  apply (bool_decide_unpack _). vm_compute. exact I.
Defined.

(** X3. A session that is validated after its expiry leaves no trace:
    when the generated identifier is not in use, [createSession]
    followed by [validateSession] at an instant later than the creation
    time plus 24 hours answers null and leaves the store as it was
    before the session was created. *)
Theorem expired_session_leaves_no_trace (u rnd : string) (now now' : Z) (st : t) :
  let s := Auth.generateSessionId rnd now in
  (getSession s st).1 = Returned None →
  now + 24 * 60 * 60 * 1000 < now' →
  Auth.validateSession s now' (Auth.createSession u rnd now st).2
  = (Returned None, st).
Proof.
  intros s Hfresh Hlate.
  pose proof Hfresh as Hnil. rewrite getSession_spec in Hnil. simpl in Hnil.
  injection Hnil as Hnil. apply head_filter_None in Hnil.
  unfold Auth.createSession, createSession, bind. fold s.
  rewrite getSession_spec. simpl. rewrite Hnil. simpl.
  rewrite validateSession_cases, getSession_spec. simpl.
  rewrite List.filter_app, Hnil. simpl. rewrite bool_decide_eq_true_2 by done.
  simpl. destruct (Z.gtb_spec now' (now + 24 * 60 * 60 * 1000)); [|lia].
  f_equal. unfold set_sessions. simpl.
  rewrite List.filter_app. simpl. rewrite bool_decide_eq_true_2 by done. simpl.
  rewrite app_nil_r, filter_absent_id by done. by destruct st.
Qed.

Lemma expired_session_leaves_no_trace_witness :
  Auth.validateSession (Auth.generateSessionId "k3f9x2" 1762128000000)
    (1762128000000 + 24 * 60 * 60 * 1000 + 1)
    (Auth.createSession "admin" "k3f9x2" 1762128000000 demo_db).2
  = (Returned None, demo_db).
Proof.
  apply (expired_session_leaves_no_trace "admin" "k3f9x2" 1762128000000
           (1762128000000 + 24 * 60 * 60 * 1000 + 1) demo_db);
    [reflexivity|lia].
Defined.
End SessionStore.

(** ** Logins on the database storage *)

Section Logins.
Import DatabaseStorage.
Variable bcrypt_compare : string → string → bool.

(** X4. [validateCredentials] answers [valid = true] in one case only:
    the username is not locked out, it has an AdminUser row, the first
    such row is active, and [bcrypt.compare] accepts the password
    against the hash of that row. *)
Theorem validateCredentials_valid_iff
    (username password : string) (ip : option string) (now : Z) (st : t) :
  (∃ result,
     (Auth.validateCredentials bcrypt_compare username password ip now st).1
     = Returned result ∧ Auth.valid result = true)
  ↔ (Auth.isRateLimited username now st).1 = Returned false
    ∧ ∃ adminUser,
        (getAdminUserByUsername username st).1 = Returned (Some adminUser)
        ∧ au_isActive adminUser = true
        ∧ bcrypt_compare password (au_passwordHash adminUser) = true.
Proof.
  rewrite validateCredentials_database, isRateLimited_database. cbv zeta.
  destruct (5 <=? _).
  { split; [by intros (result & [= <-] & ?)|by intros [? _]]. }
  destruct (getAdminUserByUsername username st).1 as [[adminUser|]|msg] eqn:Hget.
  - destruct (au_isActive adminUser) eqn:Hact;
      [destruct (bcrypt_compare password (au_passwordHash adminUser)) eqn:Hpw|].
    + split; [|by eexists]. intros _. split; [done|]. by exists adminUser.
    + split; [by intros (result & [= <-] & ?)|].
      intros (_ & a & [= <-] & _ & ?). congruence.
    + split; [by intros (result & [= <-] & ?)|].
      intros (_ & a & [= <-] & ? & _). congruence.
  - split; [by intros (result & [= <-] & ?)|]. by intros (_ & a & ? & _).
  - by rewrite getAdminUserByUsername_spec in Hget.
Qed.



(** The one row a call adds: its [successful] flag is the [valid] flag
    of the result. *)
Lemma validateCredentials_row
    (username password : string) (ip : option string) (now : Z) (st : t) :
  ∃ result,
    (Auth.validateCredentials bcrypt_compare username password ip now st).1
    = Returned result
    ∧ loginAttempts
        (Auth.validateCredentials bcrypt_compare username password ip now st).2
      = loginAttempts st ++ [attempt_row st username ip (Auth.valid result) now].
Proof.
  rewrite validateCredentials_database. cbv zeta.
  destruct (5 <=? _); [by eexists|].
  destruct (getAdminUserByUsername username st).1 as [[adminUser|]|msg];
    [|by eexists..].
  destruct (au_isActive adminUser); [|by eexists].
  destruct (bcrypt_compare password (au_passwordHash adminUser)); by eexists.
Qed.

(** X6. The failed attempts on record for a username grow by one with
    every refused login for that username and stay the same with an
    accepted one (there is no reset); logins for other usernames do not
    change them. *)
Theorem failed_attempts_after_login
    (username password : string) (ip : option string) (now : Z) (st : t)
    (username' : string) :
  let out := Auth.validateCredentials bcrypt_compare username password ip now st in
  ∃ result,
    out.1 = Returned result
    ∧ length (failed_attempts username' (loginAttempts out.2))
      = (length (failed_attempts username' (loginAttempts st))
         + (if bool_decide (username = username') && negb (Auth.valid result)
            then 1 else 0))%nat.
Proof.
  cbv zeta.
  destruct (validateCredentials_row username password ip now st)
    as (result & Hres & Hrows).
  exists result. split; [done|].
  rewrite Hrows, failed_attempts_app, length_app. f_equal.
  unfold failed_attempts. simpl.
  by destruct (bool_decide (username = username')), (Auth.valid result).
Qed.

Lemma login_attempts_refused_count username tries (st : t) :
  Forall refused (login_attempts bcrypt_compare username tries st).1 →
  length (failed_attempts username
            (loginAttempts (login_attempts bcrypt_compare username tries st).2))
  = (length (failed_attempts username (loginAttempts st)) + length tries)%nat.
Proof.
  revert st. induction tries as [|[[password ip] now] tries IH]; intros st; simpl.
  { intros _. lia. }
  destruct (validateCredentials_row username password ip now st)
    as (result & Hres & Hrows).
  destruct (Auth.validateCredentials _ _ _ _ _ st) as [r st'] eqn:Hcall.
  simpl in Hres, Hrows. subst r.
  specialize (IH st').
  destruct (login_attempts _ _ tries st') as [rs st''] eqn:Hrest. simpl in *.
  intros Hall. apply Forall_cons in Hall as [(result' & [= <-] & Hbad) Hall].
  rewrite IH, Hrows, failed_attempts_app, length_app by done.
  unfold failed_attempts at 2. simpl.
  rewrite Hbad, bool_decide_eq_true_2 by done. simpl. lia.
Qed.

(** X7. Five refused logins in a row for a username, whatever the
    reason of each refusal, lock it out: the next [validateCredentials]
    for it answers with the lockout message, for any password. *)
Theorem five_refused_logins_lock_out
    (username : string) (tries : list (string * option string * Z)) (st : t)
    (password : string) (ip : option string) (now : Z) :
  (5 ≤ length tries)%nat →
  Forall refused (login_attempts bcrypt_compare username tries st).1 →
  (Auth.validateCredentials bcrypt_compare username password ip now
     (login_attempts bcrypt_compare username tries st).2).1
  = Returned {| Auth.valid := false; Auth.message := Some Auth.lockout_message |}.
Proof.
  intros Hfive Hall. rewrite validateCredentials_database. cbv zeta.
  rewrite login_attempts_refused_count by done.
  destruct (Z.leb_spec 5 (Z.of_nat
              (length (failed_attempts username (loginAttempts st)) + length tries)));
    [done|lia].
Qed.
End Logins.

Lemma five_refused_logins_lock_out_witness :
  (Auth.validateCredentials demo_compare "admin" "secret123" None 6000
     (login_attempts demo_compare "admin"
        [("a", None, 1000); ("b", None, 2000); ("c", None, 3000);
         ("d", None, 4000); ("e", None, 5000)] demo_db).2).1
  = Returned {| Auth.valid := false; Auth.message := Some Auth.lockout_message |}.
Proof.
  apply (five_refused_logins_lock_out demo_compare "admin"
           [("a", None, 1000); ("b", None, 2000); ("c", None, 3000);
            ("d", None, 4000); ("e", None, 5000)] demo_db).
  - simpl. lia.
  - vm_compute. repeat constructor; by eexists.
Defined.

(** ** Logins on the in-memory storage *)

(** X8. On [MemStorage] the rate limiter follows the window: when no
    attempt on record is later than the call, [isRateLimited] answers
    true exactly when at least 5 failed attempts for the username lie
    in the 15 minutes before the call, and it changes nothing. *)
Theorem memory_rate_limit_follows_window
    (username : string) (now : Z) (st : MemStorage.t) :
  Forall (λ r, la_attemptedAt r ≤ now) (MemStorage.loginAttempts st) →
  ((Auth.isRateLimited username now st).1 = Returned true
   ↔ 5 ≤ failed_in_window username now (MemStorage.loginAttempts st))
  ∧ (Auth.isRateLimited username now st).2 = st.
Proof.
  intros Hpast. rewrite isRateLimited_memory by done. simpl.
  split; [|done]. unfold spec_isRateLimited. split.
  - intros [= H]. by apply Z.leb_le.
  - intros H. f_equal. by apply Z.leb_le.
Qed.

Lemma memory_rate_limit_follows_window_witness :
  ((Auth.isRateLimited "admin" 1000
      (MemStorage.set_loginAttempts
         (λ _, [failed_row 1 "admin" 10; failed_row 2 "admin" 20]) demo_mem)).1
   = Returned true
   ↔ 5 ≤ failed_in_window "admin" 1000
           [failed_row 1 "admin" 10; failed_row 2 "admin" 20])
  ∧ (Auth.isRateLimited "admin" 1000
       (MemStorage.set_loginAttempts
          (λ _, [failed_row 1 "admin" 10; failed_row 2 "admin" 20]) demo_mem)).2
    = MemStorage.set_loginAttempts
        (λ _, [failed_row 1 "admin" 10; failed_row 2 "admin" 20]) demo_mem.
Proof.
  apply (memory_rate_limit_follows_window "admin" 1000
           (MemStorage.set_loginAttempts
              (λ _, [failed_row 1 "admin" 10; failed_row 2 "admin" 20]) demo_mem)).
  apply (bool_decide_unpack _). vm_compute. exact I.
Defined.

Section MemoryLogins.
Import MemStorage.
Variable bcrypt_compare : string → string → bool.

(** X9. On [MemStorage] a lockout lapses: when every attempt on record
    for the username is older than the 15-minute window, an active user
    with the right password is accepted, however many failures there
    were before. *)
Theorem memory_lockout_lapses
    (username password : string) (ip : option string) (now : Z) (st : t)
    (adminUser : AdminUser) :
  Forall (λ r, la_username r = username →
               la_attemptedAt r < now - 15 * 60 * 1000) (loginAttempts st) →
  (getAdminUserByUsername username st).1 = Returned (Some adminUser) →
  au_isActive adminUser = true →
  bcrypt_compare password (au_passwordHash adminUser) = true →
  (Auth.validateCredentials bcrypt_compare username password ip now st).1
  = Returned {| Auth.valid := true; Auth.message := None |}.
Proof.
  intros Hold Hget Hact Hpw.
  assert (Hnone : List.filter
                    (λ attempt, bool_decide (la_username attempt = username)
                                && (now - 15 * 60 * 1000 <=? la_attemptedAt attempt))
                    (loginAttempts st) = []).
  { induction Hold as [|r rows Hr _ IH]; [done|]. simpl.
    destruct (bool_decide_reflect (la_username r = username)) as [Hu|]; [|done].
    specialize (Hr Hu). simpl.
    by destruct (Z.leb_spec (now - 15 * 60 * 1000) (la_attemptedAt r)); [lia|]. }
  unfold Auth.validateCredentials, Auth.isRateLimited, bind. simpl.
  unfold getRecentLoginAttempts, gets, ret. unfold Auth.ATTEMPT_WINDOW_MINUTES.
  rewrite Hnone. simpl.
  unfold getAdminUserByUsername, gets in *. simpl in *.
  injection Hget as ->. rewrite Hact, Hpw. simpl.
  destruct (updateAdminLastLogin_memory_attempts username now
              (set_loginAttempts
                 (λ l, l ++ [ {| la_id := Z.of_nat (length (loginAttempts st)) + 1;
                                 la_username := username; la_ipAddress := ip;
                                 la_successful := true; la_attemptedAt := now |} ])
                 st)) as (st' & -> & _).
  done.
Qed.
End MemoryLogins.

Lemma memory_lockout_lapses_witness :
  (Auth.validateCredentials demo_compare "admin" "secret123" None 3600000
     (MemStorage.set_loginAttempts
        (λ _, (λ i, failed_row i "admin" 0) <$> [1; 2; 3; 4; 5])
        (MemStorage.createAdminUser
           {| iau_username := "admin"; iau_passwordHash := demo_hash "secret123";
              iau_role := None; iau_isActive := None |} 0 demo_mem).2)).1
  = Returned {| Auth.valid := true; Auth.message := None |}.
Proof.
  eapply (memory_lockout_lapses demo_compare "admin" "secret123" None 3600000).
  - simpl. repeat constructor; simpl; lia.
  - reflexivity.
  - reflexivity.
  - reflexivity.
Defined.

(** ** The bearer header and [requireAuth] *)

Lemma strip_prefix_app (pattern s : string) :
  strip_prefix pattern (pattern +:+ s) = Some s.
Proof.
  induction pattern as [|a pattern IH]; simpl; [done|].
  by rewrite Ascii.eqb_refl.
Qed.

Lemma replace_first_absent (pattern replacement s : string) :
  occurs pattern s = false → replace_first pattern replacement s = s.
Proof.
  induction s as [|c s IH]; simpl.
  - by destruct (strip_prefix pattern "").
  - destruct (strip_prefix pattern (String c s)); [done|].
    intros H. by rewrite IH.
Qed.

(** X10. The token is what is left of the header once the first
    ["Bearer "] is taken out: [Bearer tok] gives [tok], and a header
    without ["Bearer "] is taken as the token itself, whole. No header
    gives no token. *)
Theorem bearer_token (tok header : string) :
  bearer (Some ("Bearer " +:+ tok)) = Some tok
  ∧ (occurs "Bearer " header = false → bearer (Some header) = Some header)
  ∧ bearer None = None.
Proof.
  split; [|split; [|done]].
  - reflexivity.
  - intros H. unfold bearer. simpl fmap. f_equal. by apply replace_first_absent.
Qed.

Lemma truthy_Some (s : string) : truthy (Some s) = true ↔ s ≠ "".
Proof.
  simpl. rewrite negb_true_iff. split.
  - intros H ->. by rewrite String.eqb_refl in H.
  - intros H. by apply String.eqb_neq.
Qed.

Section Middleware.
Import DatabaseStorage.

(** X11. [requireAuth] lets a request through in one case only: the
    header gives a non-empty token, [validateSession] of the token
    answers a username, and the username is not empty; the store is then
    unchanged. Without a token it answers 401 "Authentication required"
    and reads nothing; with a token whose session is missing, expired or
    held by the empty username it answers 401 "Invalid or expired
    session". It never throws. *)
Theorem requireAuth_outcomes (authorization : option string) (now : Z) (st : t) :
  (truthy (bearer authorization) = false →
   requireAuth authorization now st
   = (Returned (inl (status_json 401 "Authentication required")), st))
  ∧ (∀ tok u, bearer authorization = Some tok → tok ≠ "" →
       (Auth.validateSession tok now st).1 = Returned (Some u) → u ≠ "" →
       requireAuth authorization now st = (Returned (inr u), st))
  ∧ (∀ tok, bearer authorization = Some tok → tok ≠ "" →
       (Auth.validateSession tok now st).1 = Returned None
       ∨ (Auth.validateSession tok now st).1 = Returned (Some "") →
       (requireAuth authorization now st).1
       = Returned (inl (status_json 401 "Invalid or expired session")))
  ∧ (∀ u, (requireAuth authorization now st).1 = Returned (inr u) →
       u ≠ "" ∧ (requireAuth authorization now st).2 = st
       ∧ ∃ tok, bearer authorization = Some tok ∧ tok ≠ ""
                ∧ (Auth.validateSession tok now st).1 = Returned (Some u))
  ∧ (∀ msg, (requireAuth authorization now st).1 ≠ Thrown msg).
Proof.
  unfold requireAuth. cbv zeta.
  destruct (truthy (bearer authorization)) eqn:Htok; simpl.
  2:{ split; [done|]. split; [|split; [|split; [done|done]]].
      - intros tok u Hb Hne. rewrite Hb in Htok.
        apply truthy_Some in Hne. congruence.
      - intros tok Hb Hne. rewrite Hb in Htok.
        apply truthy_Some in Hne. congruence. }
  destruct (bearer authorization) as [tok|] eqn:Hb; [|done].
  apply truthy_Some in Htok. simpl.
  pose proof (λ u, validateSession_answer_keeps_store tok u now st) as Hkeep.
  unfold bind.
  destruct (Auth.validateSession tok now st) as [[[u|]|msg] st'] eqn:Hvs; simpl in *;
    unfold ret.
  - destruct (String.eqb_spec u "") as [->|Hu]; simpl.
    + split; [done|]. split; [|split; [|split; [done|done]]].
      * intros tok' u' [= <-] _ H Hu'. rewrite Hvs in H. simpl in H. congruence.
      * done.
    + rewrite (Hkeep u eq_refl).
      split; [done|]. split; [|split; [|split; [|done]]].
      * intros tok' u' [= <-] _ H _. rewrite Hvs in H. simpl in H. congruence.
      * intros tok' [= <-] _ [H|H]; rewrite Hvs in H; simpl in H; congruence.
      * intros u' [= <-]. split; [done|]. split; [done|].
        exists tok. by rewrite Hvs.
  - split; [done|]. split; [|split; [|split; [done|done]]].
    + intros tok' u' [= <-] _ H _. rewrite Hvs in H. simpl in H. congruence.
    + done.
  - exfalso. rewrite validateSession_cases in Hvs.
    destruct (getSession tok st).1 as [[session|]|?]; [|done..].
    by destruct (now >? s_expiresAt session).
Qed.


End Middleware.

(** ** The authentication routes *)

Lemma toString36_go_nonempty fuel n acc : Auth.toString36_go fuel n acc ≠ "".
Proof.
  revert n acc. induction fuel as [|fuel IH]; intros n acc; simpl; [done|].
  destruct (n / 36 =? 0); [done|apply IH].
Qed.

Lemma generateSessionId_nonempty rnd now : Auth.generateSessionId rnd now ≠ "".
Proof.
  unfold Auth.generateSessionId, Auth.toString36.
  pose proof (toString36_go_nonempty (Z.to_nat (Z.log2 now)) now "") as H.
  destruct rnd; simpl; [done|discriminate].
Qed.

Lemma bearer_of_token tok : bearer (Some ("Bearer " +:+ tok)) = Some tok.
Proof. reflexivity. Qed.

Section AuthRoutes.
Import DatabaseStorage.
Variable bcrypt_compare : string → string → bool.

Lemma createSession_unused_id (u rnd : string) (now : Z) (st : t) :
  (getSession (Auth.generateSessionId rnd now) st).1 = Returned None →
  Auth.createSession u rnd now st
  = (Returned (Auth.generateSessionId rnd now),
     set_sessions
       (λ rows, rows ++ [ {| s_id := Auth.generateSessionId rnd now;
                             s_username := u;
                             s_expiresAt := now + 24 * 60 * 60 * 1000 |} ]) st).
Proof.
  intros Hfresh. rewrite getSession_spec in Hfresh. simpl in Hfresh.
  injection Hfresh as Hnil. apply head_filter_None in Hnil.
  unfold Auth.createSession, createSession, bind.
  rewrite getSession_spec. simpl. by rewrite Hnil.
Qed.

Lemma validateSession_new_session (s u : string) (expiresAt now : Z) (st st' : t) :
  (getSession s st).1 = Returned None →
  sessions st' = sessions st ++ [ {| s_id := s; s_username := u;
                                     s_expiresAt := expiresAt |} ] →
  now ≤ expiresAt →
  Auth.validateSession s now st' = (Returned (Some u), st').
Proof.
  intros Hfresh Hst' Hle. rewrite getSession_spec in Hfresh. simpl in Hfresh.
  injection Hfresh as Hnil. apply head_filter_None in Hnil.
  rewrite validateSession_cases, getSession_spec. simpl.
  rewrite Hst', List.filter_app, Hnil. simpl.
  rewrite bool_decide_eq_true_2 by done. simpl.
  by destruct (Z.gtb_spec now expiresAt); [lia|].
Qed.

(** X12. A login request without a username or without a password (the
    field missing or the empty string) is answered 400 before anything
    is read or written: the store is unchanged and no login attempt is
    recorded. *)
Theorem login_missing_field_is_400
    (username password : option string) (ip : option string) (rnd : string)
    (now : Z) (st : t) :
  truthy username = false ∨ truthy password = false →
  Routes.login bcrypt_compare username password ip rnd now st
  = (Returned (status_json 400 "Username and password are required"), st).
Proof.
  intros H. unfold Routes.login, catching.
  replace (negb (truthy username) || negb (truthy password)) with true; [done|].
  destruct H as [-> | ->]; [done|]. by rewrite orb_true_r.
Qed.

(** X13. From login to an authenticated request. When the username and
    password are non-empty, the user is not locked out, is active and
    the password is right, and the generated identifier is not in use,
    [POST /api/auth/login] answers 200 with that identifier and the
    username; with the header [Bearer <identifier>], at any instant
    before the creation time plus 24 hours, [GET /api/auth/me] answers
    200 with the username and [requireAuth] lets the request through as
    that user. *)
Theorem login_then_authenticated
    (u p : string) (ip : option string) (rnd : string) (now : Z) (st : t)
    (adminUser : AdminUser) :
  u ≠ "" → p ≠ "" →
  (Auth.isRateLimited u now st).1 = Returned false →
  (getAdminUserByUsername u st).1 = Returned (Some adminUser) →
  au_isActive adminUser = true →
  bcrypt_compare p (au_passwordHash adminUser) = true →
  (getSession (Auth.generateSessionId rnd now) st).1 = Returned None →
  let s := Auth.generateSessionId rnd now in
  ∃ st',
    Routes.login bcrypt_compare (Some u) (Some p) ip rnd now st
    = (Returned (json (LoggedIn s u)), st')
    ∧ ∀ now', now' < now + 24 * 60 * 60 * 1000 →
        Routes.me (Some ("Bearer " +:+ s)) now' st' = (Returned (json (Me u)), st')
        ∧ requireAuth (Some ("Bearer " +:+ s)) now' st' = (Returned (inr u), st').
Proof.
  intros Hu Hp Hlim Hget Hact Hpw Hfresh s.
  apply truthy_Some in Hu as Htu. apply truthy_Some in Hp as Htp.
  rewrite isRateLimited_database in Hlim. simpl in Hlim. injection Hlim as Hlim.
  unfold Routes.login, catching. rewrite Htu, Htp. simpl.
  unfold bind at 1. rewrite validateCredentials_database. cbv zeta.
  rewrite Hlim, Hget, Hact, Hpw. simpl.
  set (st1 := set_adminUsers _ _).
  assert (Hfresh1 : (getSession s st1).1 = Returned None) by exact Hfresh.
  unfold bind. rewrite (createSession_unused_id u rnd now st1 Hfresh1). fold s.
  set (st2 := set_sessions _ st1).
  exists st2. split; [reflexivity|]. intros now' Hlt.
  assert (Hvs : Auth.validateSession s now' st2 = (Returned (Some u), st2)).
  { apply (validateSession_new_session s u (now + 24 * 60 * 60 * 1000) now' st1);
      [done|done|lia]. }
  assert (Hs : truthy (Some s) = true)
    by (apply truthy_Some, generateSessionId_nonempty).
  unfold Routes.me, requireAuth. cbv zeta. rewrite bearer_of_token, Hs.
  change (default "" (Some s)) with s. unfold bind. cbn [negb]. cbv beta.
  rewrite Hvs, Htu. done.
Qed.

Lemma validateSession_after_delete (tok : string) (now : Z) (st : t) :
  Auth.validateSession tok now (Auth.deleteSession tok st).2
  = (Returned None, (Auth.deleteSession tok st).2).
Proof.
  unfold Auth.deleteSession. rewrite validateSession_cases.
  by rewrite (getSession_after_delete tok st).
Qed.

(** X14. [POST /api/auth/logout] answers 200 "Logged out successfully"
    for every header, also for none and for an unknown token, and never
    throws. After it, the same header authenticates nothing:
    [GET /api/auth/me] answers 401 and [requireAuth] answers 401, at any
    time. *)
Theorem logout_then_unauthenticated
    (authorization : option string) (now : Z) (st : t) :
  ∃ st',
    Routes.logout authorization st
    = (Returned (json (Message "Logged out successfully")), st')
    ∧ (Routes.me authorization now st').1
      = Returned (status_json 401 (if truthy (bearer authorization)
                                   then "Invalid session" else "Not authenticated"))
    ∧ (requireAuth authorization now st').1
      = Returned (inl (status_json 401
                         (if truthy (bearer authorization)
                          then "Invalid or expired session"
                          else "Authentication required"))).
Proof.
  unfold Routes.logout, Routes.me, requireAuth. cbv zeta.
  destruct (truthy (bearer authorization)) eqn:Htok; simpl.
  - destruct (bearer authorization) as [tok|]; [|done]. simpl.
    eexists. split; [reflexivity|]. unfold bind.
    change (set_sessions _ st) with (Auth.deleteSession tok st).2.
    by rewrite validateSession_after_delete.
  - by eexists.
Qed.
End AuthRoutes.

Lemma login_missing_field_is_400_witness :
  Routes.login demo_compare (Some "admin") (Some "") None "k3f9x2" 1000 demo_db
  = (Returned (status_json 400 "Username and password are required"), demo_db).
Proof.
  apply (login_missing_field_is_400 demo_compare (Some "admin") (Some "")).
  right. reflexivity.
Defined.

Lemma login_then_authenticated_witness :
  ∃ st',
    Routes.login demo_compare (Some "admin") (Some "secret123") None "k3f9x2"
      1762128000000 demo_db
    = (Returned (json (LoggedIn "k3f9x2mhidiio0" "admin")), st')
    ∧ ∀ now', now' < 1762128000000 + 24 * 60 * 60 * 1000 →
        Routes.me (Some ("Bearer " +:+ "k3f9x2mhidiio0")) now' st'
        = (Returned (json (Me "admin")), st')
        ∧ requireAuth (Some ("Bearer " +:+ "k3f9x2mhidiio0")) now' st'
          = (Returned (inr "admin"), st').
Proof.
  apply (login_then_authenticated demo_compare "admin" "secret123" None "k3f9x2"
           1762128000000 demo_db demo_admin); try reflexivity; discriminate.
Defined.

(** ** The content routes *)

Lemma defined_lookup (o : Obj) (k : string) :
  defined o !! k = match o !! k with
                   | Some JUndefined => None
                   | v => v
                   end.
Proof.
  unfold defined. destruct (o !! k) as [v|] eqn:Hk.
  - destruct (decide (v = JUndefined)) as [->|Hv].
    + apply map_lookup_filter_None_2. right. intros x Hx Hp.
      rewrite Hk in Hx. injection Hx as <-. by apply Hp.
    + transitivity (Some v); [|by destruct v].
      by apply map_lookup_filter_Some_2.
  - apply map_lookup_filter_None_2. by left.
Qed.

Lemma fits_defined (r : Obj) (k : string) (v : JsVal) :
  fits r k v = true → v ≠ JUndefined.
Proof. unfold fits. intros H ->. by destruct (r !! k). Qed.

Lemma plain_patch_defined (upd existing : Obj) :
  plain_patch upd existing → defined upd = upd.
Proof.
  intros [_ Hfits]. apply map_eq. intros k. rewrite defined_lookup.
  destruct (upd !! k) as [v|] eqn:Hk; [|done].
  pose proof (fits_defined existing k v (Hfits k v Hk)). by destruct v.
Qed.

Section ContentRoutes.
Import DatabaseStorage.

Lemma coll_set_coll_database e e' f (st : t) :
  coll e' (set_coll e f st) = if decide (e' = e) then f (coll e' st) else coll e' st.
Proof. by destruct e, e'. Qed.

Lemma coll_set_sessions e g (st : t) : coll e (set_sessions g st) = coll e st.
Proof. by destruct e. Qed.

Lemma requireAuth_only_sessions authorization now (st : t) :
  ∃ rows, (requireAuth authorization now st).2 = set_sessions (λ _, rows) st.
Proof.
  unfold requireAuth. cbv zeta.
  destruct (truthy (bearer authorization)); simpl;
    [|exists (sessions st); by rewrite set_sessions_sessions].
  unfold bind.
  destruct (validateSession_only_sessions (default "" (bearer authorization)) now st)
    as [rows Hrows].
  destruct (Auth.validateSession _ now st) as [[username|msg] st']; simpl in *;
    [|by exists rows].
  destruct (truthy username); by exists rows.
Qed.


(** X15. A request to a route registered with [requireAuth] that the
    middleware does not let through gets the middleware's response and
    never reaches the handler: no content table, admin user or login
    attempt is changed by it. *)
Theorem guarded_route_refuses_without_session
    (v : Routes.Verb) (e : Entity) (authorization : option string) (id : string)
    (payload : Obj) (now : Z) (st : t) (response : Response) :
  Routes.guarded v e = true →
  (requireAuth authorization now st).1 = Returned (inl response) →
  let out := Routes.route v e authorization id payload now st in
  out.1 = Returned response
  ∧ (∀ e', coll e' out.2 = coll e' st)
  ∧ adminUsers out.2 = adminUsers st
  ∧ loginAttempts out.2 = loginAttempts st.
Proof.
  intros Hguard Hauth. unfold Routes.route. rewrite Hguard. unfold bind.
  destruct (requireAuth_only_sessions authorization now st) as [rows Hrows].
  destruct (requireAuth authorization now st) as [r st'] eqn:Hreq.
  simpl in *. subst r st'. simpl.
  split; [done|]. split; [|done]. intros e'. apply coll_set_sessions.
Qed.




(** The two ways out of [updateX] on the database. *)
Lemma database_update_cases e id upd (st : t) :
  update e id upd st
  = if no_values (defined upd) then (Thrown "No values to set", st)
    else (Returned (head ((λ r, spread r (defined upd))
                            <$> List.filter (has_id id) (coll e st))),
          set_coll e (fmap (λ r, if has_id id r then spread r (defined upd) else r))
                   st).
Proof. unfold update. by destruct (no_values _). Qed.




End ContentRoutes.

Lemma guarded_route_refuses_without_session_witness :
  let out := Routes.route Routes.DeleteOne Release None "uuid-3" ∅ 500 demo_live in
  out.1 = Returned (status_json 401 "Authentication required")
  ∧ (∀ e', DatabaseStorage.coll e' out.2 = DatabaseStorage.coll e' demo_live)
  ∧ DatabaseStorage.adminUsers out.2 = DatabaseStorage.adminUsers demo_live
  ∧ DatabaseStorage.loginAttempts out.2 = DatabaseStorage.loginAttempts demo_live.
Proof.
  apply (guarded_route_refuses_without_session Routes.DeleteOne Release None
           "uuid-3" ∅ 500 demo_live); vm_compute; reflexivity.
Defined.


Lemma demo_patch_plain : plain_patch demo_patch demo_release.
Proof.
  split.
  - vm_compute. reflexivity.
  - apply (bool_decide_unpack _). vm_compute. exact I.
Defined.


(** ** The records of [MemStorage] *)

Lemma Map_get_set_eq {V} k (v : V) (m : JsMap V) : Map_get k (Map_set k v m) = Some v.
Proof.
  unfold Map_get. induction m as [|[k' v'] m IH]; simpl.
  - by rewrite bool_decide_eq_true_2.
  - destruct (bool_decide_reflect (k' = k)) as [->|Hne]; simpl.
    + by rewrite bool_decide_eq_true_2.
    + by rewrite bool_decide_eq_false_2.
Qed.

Lemma Map_get_set_ne {V} k k' (v : V) (m : JsMap V) :
  k' ≠ k → Map_get k' (Map_set k v m) = Map_get k' m.
Proof.
  intros Hne. unfold Map_get. induction m as [|[k0 v0] m IH]; simpl.
  - by rewrite bool_decide_eq_false_2.
  - destruct (bool_decide_reflect (k0 = k)) as [->|Hne0]; simpl.
    + by rewrite !bool_decide_eq_false_2.
    + destruct (bool_decide (k0 = k')); [done|apply IH].
Qed.

Lemma Map_get_delete_eq {V} k (m : JsMap V) : Map_get k (Map_delete k m) = None.
Proof.
  unfold Map_get, Map_delete. induction m as [|[k' v'] m IH]; simpl; [done|].
  destruct (bool_decide (k' = k)) eqn:E; simpl; [done|]. by rewrite E.
Qed.

Lemma Map_get_delete_ne {V} k k' (m : JsMap V) :
  k' ≠ k → Map_get k' (Map_delete k m) = Map_get k' m.
Proof.
  intros Hne. unfold Map_get, Map_delete.
  induction m as [|[k0 v0] m IH]; simpl; [done|].
  destruct (bool_decide_reflect (k0 = k)) as [->|Hne0]; simpl.
  - by rewrite bool_decide_eq_false_2.
  - destruct (bool_decide (k0 = k')); [done|apply IH].
Qed.

Lemma Map_delete_absent {V} k (m : JsMap V) :
  Map_get k m = None → Map_delete k m = m.
Proof.
  unfold Map_get, Map_delete. induction m as [|[k0 v0] m IH]; simpl; [done|].
  destruct (bool_decide (k0 = k)); simpl; [done|]. intros H. by rewrite IH.
Qed.

Lemma Map_set_length_stored {V} k (v : V) (m : JsMap V) :
  is_Some (Map_get k m) → length (Map_set k v m) = length m.
Proof.
  unfold Map_get. induction m as [|[k0 v0] m IH]; simpl.
  - by intros [? ?].
  - destruct (bool_decide (k0 = k)); simpl; [done|]. intros H. by rewrite IH.
Qed.

Lemma set_coll_same_memory e f (st : MemStorage.t) :
  f (MemStorage.coll e st) = MemStorage.coll e st →
  MemStorage.set_coll e f st = st.
Proof.
  intros H. destruct e, st; unfold MemStorage.set_coll; simpl in *; congruence.
Qed.

Lemma new_record_id_createdAt e insert id now :
  MemStorage.new_record e insert id now !! "id" = Some (JStr id)
  ∧ MemStorage.new_record e insert id now !! "createdAt" = Some (JDate now).
Proof.
  assert (Hspread :
    (<["createdAt" := JDate now]> (<["id" := JStr id]> insert) : Obj) !! "id"
    = Some (JStr id)
    ∧ (<["createdAt" := JDate now]> (<["id" := JStr id]> insert) : Obj) !! "createdAt"
      = Some (JDate now)).
  { split; [|apply lookup_insert_eq].
    rewrite lookup_insert_ne by done. apply lookup_insert_eq. }
  destruct e; try exact Hspread; split; vm_compute; reflexivity.
Qed.

Section MemoryRecords.
Import MemStorage.

Lemma memory_create_spec e insert id now (st : t) :
  create e insert id now st
  = (Returned (new_record e insert id now),
     set_coll e (Map_set id (new_record e insert id now)) st).
Proof. reflexivity. Qed.

Lemma memory_delete_spec e id (st : t) :
  delete e id st = (Returned tt, set_coll e (Map_delete id) st).
Proof. reflexivity. Qed.

Lemma memory_update_spec e id upd existing (st : t) :
  Map_get id (coll e st) = Some existing →
  update e id upd st
  = (Returned (Some (spread existing upd)),
     set_coll e (Map_set id (spread existing upd)) st).
Proof.
  intros H. unfold update, bind, gets. simpl. by rewrite H.
Qed.

(** X18. Create, then read, on [MemStorage]. [createX] returns the
    record it stores; the record carries the given identifier as [id]
    and the time of the call as [createdAt], also when the input had
    fields of these names; [getXById] of the identifier then returns
    this record. Records under other identifiers, and the other tables,
    are as before. *)
Theorem memory_create_then_getById
    (e : Entity) (insert : Obj) (id : string) (now : Z) (st : t) :
  let record := new_record e insert id now in
  let out := create e insert id now st in
  out.1 = Returned record
  ∧ (getById e id out.2).1 = Returned (Some record)
  ∧ record !! "id" = Some (JStr id)
  ∧ record !! "createdAt" = Some (JDate now)
  ∧ (∀ id', id' ≠ id → (getById e id' out.2).1 = (getById e id' st).1)
  ∧ (∀ e', e' ≠ e → coll e' out.2 = coll e' st).
Proof.
  cbv zeta. rewrite memory_create_spec. cbn [fst snd getById gets].
  rewrite !coll_set_coll_mem, decide_True by done.
  split; [done|]. split; [by rewrite Map_get_set_eq|].
  split; [apply new_record_id_createdAt|]. split; [apply new_record_id_createdAt|].
  split.
  - intros id' Hne. by rewrite Map_get_set_ne.
  - intros e' Hne. by rewrite coll_set_coll_mem, decide_False.
Qed.

(** X19. Update of a stored record on [MemStorage]. [updateX] returns
    the stored record merged with the patch (the patch's fields win) and
    stores it under the same key, so [getXById] of the id returns it,
    also when the patch carries a different [id]. The number of records
    is unchanged and records under other ids are as before. *)
Theorem memory_update_stored_record
    (e : Entity) (id : string) (upd existing : Obj) (st : t) :
  (getById e id st).1 = Returned (Some existing) →
  let merged := spread existing upd in
  let out := update e id upd st in
  out.1 = Returned (Some merged)
  ∧ (getById e id out.2).1 = Returned (Some merged)
  ∧ (∀ k v, upd !! k = Some v → merged !! k = Some v)
  ∧ (∀ k, upd !! k = None → merged !! k = existing !! k)
  ∧ length (coll e out.2) = length (coll e st)
  ∧ (∀ id', id' ≠ id → (getById e id' out.2).1 = (getById e id' st).1).
Proof.
  cbn [fst snd getById gets]. intros [= Hget]. cbv zeta.
  rewrite (memory_update_spec e id upd existing st Hget). cbn [fst snd getById gets].
  rewrite !coll_set_coll_mem, decide_True by done.
  split; [done|]. split; [by rewrite Map_get_set_eq|].
  split; [intros k v Hk; by apply lookup_union_Some_l|].
  split; [intros k Hk; by apply lookup_union_r|].
  split; [apply Map_set_length_stored; by rewrite Hget|].
  intros id' Hne. by rewrite Map_get_set_ne.
Qed.

(** X20. Delete on [MemStorage] never fails; afterwards [getXById] of
    the id is [undefined] and the other records are as before. Deleting
    an id that is not stored changes nothing, so a second delete is a
    no-op. *)
Theorem memory_delete_then_getById (e : Entity) (id : string) (st : t) :
  let out := delete e id st in
  out.1 = Returned tt
  ∧ (getById e id out.2).1 = Returned None
  ∧ (∀ id', id' ≠ id → (getById e id' out.2).1 = (getById e id' st).1)
  ∧ ((getById e id st).1 = Returned None → out.2 = st)
  ∧ delete e id out.2 = (Returned tt, out.2).
Proof.
  cbv zeta. rewrite !memory_delete_spec. cbn [fst snd getById gets].
  rewrite !coll_set_coll_mem, decide_True by done.
  split; [done|]. split; [by rewrite Map_get_delete_eq|]. split; [|split].
  - intros id' Hne. by rewrite Map_get_delete_ne.
  - intros [= Hnone]. apply set_coll_same_memory. by apply Map_delete_absent.
  - f_equal. apply set_coll_same_memory.
    rewrite coll_set_coll_mem, decide_True by done.
    apply Map_delete_absent, Map_get_delete_eq.
Qed.
End MemoryRecords.

Lemma memory_update_stored_record_witness :
  let existing := default ∅ (head (Map_values (MemStorage.releases demo_mem))) in
  let merged := spread existing demo_patch in
  let out := MemStorage.update Release "uuid-3" demo_patch demo_mem in
  out.1 = Returned (Some merged)
  ∧ (MemStorage.getById Release "uuid-3" out.2).1 = Returned (Some merged)
  ∧ (∀ k v, demo_patch !! k = Some v → merged !! k = Some v)
  ∧ (∀ k, demo_patch !! k = None → merged !! k = existing !! k)
  ∧ length (MemStorage.coll Release out.2) = length (MemStorage.coll Release demo_mem)
  ∧ (∀ id', id' ≠ "uuid-3" →
       (MemStorage.getById Release id' out.2).1
       = (MemStorage.getById Release id' demo_mem).1).
Proof.
  apply (memory_update_stored_record Release "uuid-3" demo_patch
           (default ∅ (head (Map_values (MemStorage.releases demo_mem)))) demo_mem).
  vm_compute. reflexivity.
Defined.

(** ** Where [MemStorage] and [DatabaseStorage] agree *)

Lemma find_head_filter {A} (p : A → bool) (l : list A) :
  List.find p l = head (List.filter p l).
Proof. induction l as [|x l IH]; simpl; [done|]. by destruct (p x). Qed.

Lemma has_id_keyed id (kv : string * Obj) :
  kv.2 !! "id" = Some (JStr kv.1) →
  DatabaseStorage.has_id id kv.2 = bool_decide (kv.1 = id).
Proof.
  intros H. unfold DatabaseStorage.has_id. rewrite H.
  destruct (bool_decide_reflect (kv.1 = id)) as [->|Hne].
  - by rewrite bool_decide_eq_true_2.
  - rewrite bool_decide_eq_false_2; [done|]. congruence.
Qed.

Lemma Map_get_keyed id (m : JsMap Obj) :
  keyed_by_id m →
  Map_get id m = head (List.filter (DatabaseStorage.has_id id) (Map_values m)).
Proof.
  intros [_ Hkeys]. unfold Map_get, Map_values.
  induction Hkeys as [|kv m Hkv _ IH]; [done|].
  rewrite fmap_cons. simpl. rewrite (has_id_keyed id kv Hkv).
  destruct (bool_decide (kv.1 = id)); [done|apply IH].
Qed.

Lemma Map_delete_keyed id (m : JsMap Obj) :
  keyed_by_id m →
  Map_values (Map_delete id m)
  = List.filter (λ r, negb (DatabaseStorage.has_id id r)) (Map_values m).
Proof.
  intros [_ Hkeys]. unfold Map_delete, Map_values.
  induction Hkeys as [|kv m Hkv _ IH]; [done|].
  rewrite fmap_cons. simpl. rewrite (has_id_keyed id kv Hkv).
  destruct (bool_decide (kv.1 = id)); simpl; [apply IH|].
  f_equal. apply IH.
Qed.

Lemma Map_delete_keeps_keyed id (m : JsMap Obj) :
  keyed_by_id m → keyed_by_id (Map_delete id m).
Proof.
  intros [Hnd Hkeys]. unfold Map_delete. split.
  - induction m as [|kv m IH]; simpl; [constructor|].
    apply NoDup_cons in Hnd as [Hkv Hnd]. apply Forall_cons in Hkeys as [_ Hkeys].
    destruct (negb _); [|by apply IH].
    rewrite fmap_cons. apply NoDup_cons. split; [|by apply IH].
    intros Hin. apply Hkv. apply list_elem_of_fmap in Hin as (kv' & -> & Hin').
    apply list_elem_of_fmap_2.
    by apply list_elem_of_In, List.filter_In in Hin' as [?%list_elem_of_In _].
  - apply Forall_forall. intros kv Hin.
    apply list_elem_of_In, List.filter_In in Hin as [Hin%list_elem_of_In _].
    by apply (proj1 (Forall_forall _ _) Hkeys).
Qed.

Lemma Map_set_keys_stored {V} k (v : V) (m : JsMap V) :
  is_Some (Map_get k m) → (Map_set k v m).*1 = m.*1.
Proof.
  unfold Map_get. induction m as [|[k0 v0] m IH]; simpl.
  - by intros [? ?].
  - destruct (bool_decide_reflect (k0 = k)) as [->|Hne]; simpl; [done|].
    intros H. f_equal. by apply IH.
Qed.

Lemma fmap_unless_key {V} (key_of : V → string) (g : V → V) k (m : JsMap V) :
  Forall (λ kv, key_of kv.2 = kv.1) m →
  k ∉ m.*1 →
  (λ r, if bool_decide (key_of r = k) then g r else r) <$> Map_values m
  = Map_values m.
Proof.
  unfold Map_values. induction 1 as [|[k0 v0] m Hkv _ IH]; [done|].
  rewrite !fmap_cons. simpl in *. intros [Hne Hk]%not_elem_of_cons.
  rewrite bool_decide_eq_false_2 by congruence. f_equal. by apply IH.
Qed.

Lemma Map_set_values_stored {V} (key_of : V → string) (g : V → V)
    k (existing : V) (m : JsMap V) :
  NoDup m.*1 →
  Forall (λ kv, key_of kv.2 = kv.1) m →
  Map_get k m = Some existing →
  Map_values (Map_set k (g existing) m)
  = (λ r, if bool_decide (key_of r = k) then g r else r) <$> Map_values m.
Proof.
  unfold Map_get. intros Hnd Hkeys. revert Hnd.
  induction Hkeys as [|[k0 v0] m Hkv Hkeys IH]; [done|].
  rewrite fmap_cons, NoDup_cons. intros [Hk0 Hnd]. cbn [fst snd] in *. subst k0.
  unfold Map_values in *. cbn [Map_set List.find fst snd].
  destruct (bool_decide_reflect (key_of v0 = k)) as [<-|Hne].
  - rewrite !fmap_cons. cbn [fst snd]. intros [= ->].
    rewrite bool_decide_eq_true_2 by done. f_equal. symmetry.
    by apply (fmap_unless_key key_of g).
  - rewrite !fmap_cons. cbn [fst snd]. intros Hget.
    rewrite bool_decide_eq_false_2 by done. f_equal. by apply IH.
Qed.

Lemma fmap_unless_has_id (g : Obj → Obj) id (m : JsMap Obj) :
  Forall (λ kv, kv.2 !! "id" = Some (JStr kv.1)) m →
  id ∉ m.*1 →
  (λ r, if DatabaseStorage.has_id id r then g r else r) <$> Map_values m
  = Map_values m.
Proof.
  unfold Map_values. induction 1 as [|kv m Hkv _ IH]; [done|].
  rewrite !fmap_cons. intros [Hne Hk]%not_elem_of_cons.
  rewrite (has_id_keyed id kv Hkv), bool_decide_eq_false_2 by congruence.
  f_equal. by apply IH.
Qed.

Lemma Map_set_values_keyed (g : Obj → Obj) id (existing : Obj) (m : JsMap Obj) :
  keyed_by_id m →
  Map_get id m = Some existing →
  Map_values (Map_set id (g existing) m)
  = (λ r, if DatabaseStorage.has_id id r then g r else r) <$> Map_values m.
Proof.
  unfold Map_get. intros [Hnd Hkeys]. revert Hnd.
  induction Hkeys as [|[k0 v0] m Hkv Hkeys IH]; [done|].
  rewrite fmap_cons, NoDup_cons. intros [Hk0 Hnd].
  unfold Map_values in *. cbn [Map_set List.find fst snd] in *.
  rewrite !fmap_cons, (has_id_keyed id (k0, v0) Hkv). cbn [fst snd].
  destruct (bool_decide_reflect (k0 = id)) as [<-|Hne].
  - intros [= ->]. rewrite fmap_cons. cbn [fst snd]. f_equal. symmetry.
    by apply fmap_unless_has_id.
  - intros Hget. rewrite fmap_cons. cbn [fst snd]. f_equal. by apply IH.
Qed.

Lemma Map_set_keeps_keyed id (v : Obj) (m : JsMap Obj) :
  keyed_by_id m → is_Some (Map_get id m) → v !! "id" = Some (JStr id) →
  keyed_by_id (Map_set id v m).
Proof.
  intros [Hnd Hkeys] Hstored Hv. split.
  - by rewrite Map_set_keys_stored.
  - clear Hnd Hstored. induction Hkeys as [|[k0 v0] m Hkv Hrest IH]; simpl.
    + by constructor.
    + destruct (bool_decide (k0 = id)); constructor; done.
Qed.

Lemma well_keyed_set_coll e f (m : MemStorage.t) :
  well_keyed m → keyed_by_id (f (MemStorage.coll e m)) →
  well_keyed (MemStorage.set_coll e f m).
Proof.
  intros [Hadmin Hcoll] Hf. split; [by destruct e|].
  intros e'. rewrite coll_set_coll_mem. by destruct (decide (e' = e)) as [->|].
Qed.

Lemma List_filter_Permutation {A} (p : A → bool) (l l' : list A) :
  l ≡ₚ l' → List.filter p l ≡ₚ List.filter p l'.
Proof.
  induction 1 as [|x l l' _ IH|x y l|l l' l'' _ IH1 _ IH2]; simpl.
  - done.
  - destruct (p x); [by constructor|done].
  - destruct (p x), (p y); try done. apply perm_swap.
  - by etrans.
Qed.

(** A lookup by a key that at most one row has does not depend on the
    order of the rows. *)
Lemma head_filter_Permutation {A} (p : A → bool) (l l' : list A) :
  l ≡ₚ l' →
  (∀ x y, x ∈ l → y ∈ l → p x = true → p y = true → x = y) →
  head (List.filter p l) = head (List.filter p l').
Proof.
  intros Hperm Hone.
  pose proof (List_filter_Permutation p l l' Hperm) as Hf.
  destruct (List.filter p l) as [|x rows] eqn:Hl.
  - apply Permutation_nil_l in Hf. by rewrite Hf.
  - destruct (List.filter p l') as [|y rows'] eqn:Hl'.
    + by apply Permutation_nil_r in Hf.
    + simpl. f_equal.
      assert (Hy : y ∈ List.filter p l).
      { rewrite Hl, Hf. left. }
      assert (Hx : x ∈ List.filter p l) by (rewrite Hl; left).
      apply list_elem_of_In, List.filter_In in Hx as [Hx%list_elem_of_In Hpx].
      apply list_elem_of_In, List.filter_In in Hy as [Hy%list_elem_of_In Hpy].
      by apply Hone.
Qed.

Lemma keyed_values_unique {V} (key_of : V → string) (m : JsMap V) (x y : V) :
  NoDup m.*1 →
  Forall (λ kv, key_of kv.2 = kv.1) m →
  x ∈ Map_values m → y ∈ Map_values m → key_of x = key_of y → x = y.
Proof.
  unfold Map_values. intros Hnd Hkeys. revert Hnd.
  induction Hkeys as [|[k v] m Hkv Hkeys IH]; [by intros _ ?%elem_of_nil|].
  rewrite !fmap_cons, NoDup_cons. cbn [fst snd] in *. intros [Hk Hnd].
  assert (Hin : ∀ z, z ∈ m.*2 → key_of z ∈ m.*1).
  { intros z (kv & -> & Hz)%list_elem_of_fmap.
    rewrite (proj1 (Forall_forall _ _) Hkeys kv Hz).
    by apply list_elem_of_fmap_2. }
  intros [->|Hx]%elem_of_cons [->|Hy]%elem_of_cons Heq.
  - done.
  - exfalso. apply Hk. rewrite <- Hkv, Heq. by apply Hin.
  - exfalso. apply Hk. rewrite <- Hkv, <- Heq. by apply Hin.
  - by apply IH.
Qed.

Lemma keyed_by_id_unique id (m : JsMap Obj) (x y : Obj) :
  keyed_by_id m →
  x ∈ Map_values m → y ∈ Map_values m →
  DatabaseStorage.has_id id x = true → DatabaseStorage.has_id id y = true → x = y.
Proof.
  intros [Hnd Hkeys] Hx Hy Hidx%bool_decide_eq_true_1 Hidy%bool_decide_eq_true_1.
  pose (key_of := λ r : Obj, match r !! "id" with Some (JStr s) => s | _ => "" end).
  apply (keyed_values_unique key_of m x y Hnd); [|done|done|].
  - eapply Forall_impl; [exact Hkeys|]. intros kv Hkv. unfold key_of. by rewrite Hkv.
  - unfold key_of. by rewrite Hidx, Hidy.
Qed.

Lemma to_database_holds_rows (m : MemStorage.t) : holds_rows_of (to_database m) m.
Proof. split; [done|]. split; [done|]. intros e. by destruct e. Qed.

Section Correspondence.

Lemma holds_rows_set_coll e f g (d : DatabaseStorage.t) (m : MemStorage.t) :
  holds_rows_of d m →
  g (DatabaseStorage.coll e d) ≡ₚ Map_values (f (MemStorage.coll e m)) →
  holds_rows_of (DatabaseStorage.set_coll e g d) (MemStorage.set_coll e f m).
Proof.
  intros (Hadmin & Hlogin & Hcoll) Hnew.
  split; [by destruct e|]. split; [by destruct e|].
  intros e'. rewrite coll_set_coll_database, coll_set_coll_mem.
  destruct (decide (e' = e)) as [->|]; [done|apply Hcoll].
Qed.

Lemma holds_rows_set_adminUsers f g (d : DatabaseStorage.t) (m : MemStorage.t) :
  holds_rows_of d m →
  g (DatabaseStorage.adminUsers d) ≡ₚ Map_values (f (MemStorage.adminUsers m)) →
  holds_rows_of (DatabaseStorage.set_adminUsers g d) (MemStorage.set_adminUsers f m).
Proof.
  intros (Hadmin & Hlogin & Hcoll) Hnew. split; [done|]. split; [done|].
  intros e. specialize (Hcoll e). by destruct e.
Qed.

Lemma holds_rows_set_loginAttempts f g (d : DatabaseStorage.t) (m : MemStorage.t) :
  holds_rows_of d m →
  g (DatabaseStorage.loginAttempts d) ≡ₚ f (MemStorage.loginAttempts m) →
  holds_rows_of (DatabaseStorage.set_loginAttempts g d)
                (MemStorage.set_loginAttempts f m).
Proof.
  intros (Hadmin & Hlogin & Hcoll) Hnew. split; [done|]. split; [done|].
  intros e. specialize (Hcoll e). by destruct e.
Qed.

(** X21. Where the two storages agree. Take a [MemStorage] whose records
    are stored under their own ids and a database that holds the same
    rows, in whatever order, and one of these calls: a read by id or by
    username, a listing, a delete, the recording of a login time, the
    update of a stored record by a plain patch. Whenever the call returns on the database, it returns
    on the [MemStorage] with the same answer (a listing: the same rows,
    in whatever order), the database then still holds the rows of the
    [MemStorage], and the [MemStorage] is still keyed by id. Each of
    these calls but the update does return on the database. *)
Theorem storages_agree_on_comparable_calls
    (c : StorageCall) (now : Z) (m : MemStorage.t) (d : DatabaseStorage.t) :
  well_keyed m →
  holds_rows_of d m →
  comparable c m →
  (no_update c → ∃ a', (perform c now d).1 = Returned a')
  ∧ ∀ a', (perform c now d).1 = Returned a' →
      ∃ a, (perform c now m).1 = Returned a
           ∧ same_answer a a'
           ∧ holds_rows_of (perform c now d).2 (perform c now m).2
           ∧ well_keyed (perform c now m).2.
Proof.
  intros Hwk Hrows Hc. pose proof Hwk as [[Hand Hakeys] Hcoll].
  pose proof Hrows as (Hadmin & Hlogin & Hcontent).
  assert (Hcases :
    (∃ a a', (perform c now m).1 = Returned a
             ∧ (perform c now d).1 = Returned a'
             ∧ same_answer a a'
             ∧ holds_rows_of (perform c now d).2 (perform c now m).2
             ∧ well_keyed (perform c now m).2)
    ∨ (¬ no_update c ∧ ∃ msg, (perform c now d).1 = Thrown msg)).
  { destruct c as [username|user|username|attempt|username minutes|e|e id
                  |e insert id|e id upd|e id]; try done.
    - (* getAdminUserByUsername *)
      left. eexists _, _. split; [reflexivity|]. split; [reflexivity|].
      split; [|done]. simpl. f_equal. rewrite find_head_filter. symmetry.
      apply head_filter_Permutation; [done|].
      intros x y Hx Hy Hpx Hpy. rewrite Hadmin in Hx, Hy.
      apply (keyed_values_unique au_username _ x y Hand Hakeys Hx Hy).
      apply bool_decide_eq_true_1 in Hpx, Hpy. congruence.
    - (* updateAdminLastLogin *)
      left. exists AnsVoid, AnsVoid.
      simpl. unfold MemStorage.updateAdminLastLogin,
        MemStorage.getAdminUserByUsername,
        DatabaseStorage.updateAdminLastLogin, bind, gets, ret, modify. simpl.
      destruct (List.find _ (Map_values (MemStorage.adminUsers m)))
        as [user|] eqn:Hfind; simpl.
      + assert (Hget : Map_get username (MemStorage.adminUsers m) = Some user).
        { revert Hfind. unfold Map_get, Map_values. clear Hand Hadmin.
          induction Hakeys as [|[k0 v0] l Hkv _ IH]; [done|].
          rewrite fmap_cons. simpl in *. subst k0.
          destruct (bool_decide (au_username v0 = username)); [done|apply IH]. }
        pose proof (Map_set_values_stored au_username
                      (DatabaseStorage.touch_login now) username user
                      (MemStorage.adminUsers m) Hand Hakeys Hget) as Hvals.
        split; [done|]. split; [done|]. split; [done|]. split.
        * apply holds_rows_set_adminUsers; [done|].
          unfold DatabaseStorage.touch_login in Hvals. rewrite Hvals.
          by apply fmap_Permutation.
        * split; [|exact Hcoll]. simpl. split.
          -- rewrite Map_set_keys_stored; [done|by rewrite Hget].
          -- assert (Hu : au_username user = username).
             { apply find_some in Hfind as [_ Hu].
               by apply bool_decide_eq_true_1 in Hu. }
             clear Hget Hvals Hfind Hand Hadmin.
             induction Hakeys as [|[k0 v0] l Hkv Hrest IH]; simpl.
             ++ by constructor.
             ++ destruct (bool_decide (k0 = username)); constructor; done.
      + split; [done|]. split; [done|]. split; [done|]. split; [|done].
        rewrite find_head_filter in Hfind. apply head_filter_None in Hfind.
        split; [|split; [done|]].
        * simpl.
          rewrite <- (fmap_unless_hit _ (DatabaseStorage.touch_login now) _ Hfind).
          by apply fmap_Permutation.
        * intros e. specialize (Hcontent e). by destruct e.
    - (* getAll *)
      left. eexists _, _. split; [reflexivity|]. split; [reflexivity|].
      split; [|done]. simpl. symmetry. apply Hcontent.
    - (* getById *)
      left. eexists _, _. split; [reflexivity|]. split; [reflexivity|].
      split; [|done]. simpl. f_equal.
      rewrite (Map_get_keyed id _ (Hcoll e)). symmetry.
      apply head_filter_Permutation; [done|].
      intros x y Hx Hy. rewrite (Hcontent e) in Hx, Hy.
      by apply (keyed_by_id_unique id (MemStorage.coll e m)).
    - (* update *)
      destruct Hc as (existing & Hget & Hplain).
      pose proof (plain_patch_defined upd existing Hplain) as Hdef.
      destruct Hplain as [Hupd Hfields].
      assert (Hd : perform (Update e id upd) now d
                   = bind (DatabaseStorage.update e id upd)
                          (λ r, ret (AnsRecord r)) d) by done.
      rewrite Hd. unfold bind. rewrite database_update_cases, Hdef.
      destruct (DatabaseStorage.no_values upd); [right; split; [tauto|by eexists]|].
      left. simpl.
      pose proof (Map_set_values_keyed (λ r, spread r upd) id existing _
                    (Hcoll e) Hget) as Hvals.
      assert (Hrow : head (List.filter (DatabaseStorage.has_id id)
                                       (DatabaseStorage.coll e d)) = Some existing).
      { rewrite <- Hget, (Map_get_keyed id _ (Hcoll e)).
        apply head_filter_Permutation; [done|].
        intros x y Hx Hy. rewrite (Hcontent e) in Hx, Hy.
        by apply (keyed_by_id_unique id (MemStorage.coll e m)). }
      exists (AnsRecord (Some (spread existing upd))),
             (AnsRecord (Some (spread existing upd))).
      unfold MemStorage.update, bind, gets, ret, modify. simpl. rewrite Hget. simpl.
      split; [done|]. split.
      { destruct (List.filter _ (DatabaseStorage.coll e d)) as [|r rows]; [done|].
        simpl in *. by injection Hrow as ->. }
      split; [done|]. split.
      + apply holds_rows_set_coll; [done|]. rewrite Hvals.
        by apply fmap_Permutation.
      + apply well_keyed_set_coll; [done|].
        apply Map_set_keeps_keyed; [done|by rewrite Hget|].
        unfold spread. rewrite lookup_union_r by done.
        destruct (Hcoll e) as [_ Hk].
        unfold Map_get in Hget.
        destruct (List.find _ _) as [[k0 v0]|] eqn:Hfind; [|done].
        simpl in Hget. injection Hget as ->.
        apply find_some in Hfind as [Hin Heq]. apply bool_decide_eq_true_1 in Heq.
        simpl in Heq. subst k0.
        by apply (proj1 (Forall_forall _ _) Hk (id, existing)), list_elem_of_In.
    - (* delete *)
      left. exists AnsVoid, AnsVoid.
      simpl. unfold MemStorage.delete, DatabaseStorage.delete, modify. simpl.
      split; [done|]. split; [done|]. split; [done|]. split.
      + apply holds_rows_set_coll; [done|].
        rewrite (Map_delete_keyed id _ (Hcoll e)).
        by apply List_filter_Permutation.
      + apply well_keyed_set_coll; [done|]. by apply Map_delete_keeps_keyed. }
  destruct Hcases as [(a & a' & Hm & Hd & Hsame & Hheld & Hkeyed)|[Hupdate [msg Hd]]].
  - split; [by exists a'|].
    intros a'' Ha''. rewrite Hd in Ha''. injection Ha'' as <-. by exists a.
  - split; [done|]. intros a' Ha'. by rewrite Hd in Ha'.
Qed.
End Correspondence.

Lemma demo_mem_well_keyed : well_keyed demo_mem.
Proof.
  split; [split; constructor|].
  intros e. split.
  - apply (bool_decide_unpack _). destruct e; vm_compute; exact I.
  - destruct e; repeat constructor; vm_compute; reflexivity.
Qed.

(** The update of the first release of the catalogue by the patch
    [{title: "X"}], which returns on the database. *)
Lemma storages_agree_on_comparable_calls_witness :
  ∃ a, (perform (Update Release "uuid-3" demo_patch) 10 demo_mem).1 = Returned a
       ∧ same_answer a (AnsRecord (Some (spread demo_release demo_patch)))
       ∧ holds_rows_of
           (perform (Update Release "uuid-3" demo_patch) 10 demo_catalog).2
           (perform (Update Release "uuid-3" demo_patch) 10 demo_mem).2
       ∧ well_keyed (perform (Update Release "uuid-3" demo_patch) 10 demo_mem).2.
Proof.
  refine (proj2 (storages_agree_on_comparable_calls
                   (Update Release "uuid-3" demo_patch) 10 demo_mem demo_catalog
                   demo_mem_well_keyed (to_database_holds_rows demo_mem) _) _ _).
  - exists demo_release. split; [vm_compute; reflexivity|exact demo_patch_plain].
  - vm_compute. reflexivity.
Defined.

(** ** Radio settings *)

Section Radio.
Import RadioSettings.

(** X22. [initRadioSettings] is a first-run initialisation: on an empty
    table it inserts the default station row and returns it; on a table
    that has a row it returns the first row and writes nothing. Either
    way [getRadioSettings] then returns the row it returned, and a
    second [initRadioSettings] returns that row again and changes
    nothing. *)
Theorem initRadioSettings_idempotent (id id' : JsVal) (rows : list Obj) :
  let out := initRadioSettings id rows in
  ∃ row,
    out.1 = Returned (Some row)
    ∧ getRadioSettings out.2 = (Returned (Some row), out.2)
    ∧ initRadioSettings id' out.2 = (Returned (Some row), out.2)
    ∧ (rows = [] → length out.2 = 1%nat
                   ∧ row !! "stationName" = Some (JStr "GroupTherapy Radio"))
    ∧ (rows ≠ [] → out.2 = rows ∧ head rows = Some row).
Proof.
  destruct rows as [|existing rest].
  - eexists. split; [reflexivity|]. split; [reflexivity|]. split; [reflexivity|].
    split; [|done]. intros _. split; [done|].
    cbv zeta. simpl. by rewrite lookup_insert_ne.
  - exists existing. by repeat split.
Qed.

(** X23. [updateRadioSettings] needs an initialised table: on an empty
    one it throws "Radio settings not initialized" and writes nothing.
    On a table with one row, as [initRadioSettings] leaves it, it
    returns that row merged with the given settings and stamped with
    [updatedAt], the time of the call, and stores it in the place of the
    row, so that [getRadioSettings] then returns it. A setting that is
    [undefined] is not written: the row keeps its value of that field.
    (The row has an id, and each setting is [undefined] or a value for a
    field of the row.) *)
Theorem updateRadioSettings_needs_init
    (settings existing : Obj) (id : JsVal) (now : Z) :
  existing !! "id" = Some id → id ≠ JUndefined → id ≠ JNull →
  map_Forall (λ k v, v = JUndefined ∨ fits existing k v = true) settings →
  updateRadioSettings settings now []
  = (Thrown "Radio settings not initialized", [])
  ∧ ∃ updated,
      updateRadioSettings settings now [existing]
      = (Returned (Some updated), [updated])
      ∧ getRadioSettings [updated] = (Returned (Some updated), [updated])
      ∧ updated !! "updatedAt" = Some (JDate now)
      ∧ (∀ k v, k ≠ "updatedAt" → settings !! k = Some v → v ≠ JUndefined →
           updated !! k = Some v)
      ∧ (∀ k, k ≠ "updatedAt" →
           settings !! k = None ∨ settings !! k = Some JUndefined →
           updated !! k = existing !! k)
      ∧ (∀ k, k ≠ "updatedAt" → (is_Some (updated !! k) ↔ is_Some (existing !! k))).
Proof.
  intros Hid Hundef Hnull Hfields. split; [reflexivity|].
  exists (spread existing (defined (<["updatedAt" := JDate now]> settings))).
  assert (Hself : same_id existing existing = true).
  { unfold same_id. rewrite Hid. destruct id; try done;
      by apply bool_decide_eq_true_2. }
  split; [|split; [done|]].
  { unfold updateRadioSettings, getRadioSettings, bind, gets, ret, modify. simpl.
    by rewrite Hself. }
  unfold spread. split; [|split; [|split]].
  - apply lookup_union_Some_l. by rewrite defined_lookup, lookup_insert_eq.
  - intros k v Hk Hv Hdef. apply lookup_union_Some_l.
    rewrite defined_lookup, lookup_insert_ne, Hv by done. by destruct v.
  - intros k Hk Hv. apply lookup_union_r.
    rewrite defined_lookup, lookup_insert_ne by done. by destruct Hv as [->| ->].
  - intros k Hk. rewrite lookup_union_is_Some. split; [|by right].
    intros [Hset|Hrow]; [|done].
    rewrite defined_lookup, lookup_insert_ne in Hset by done.
    destruct (settings !! k) as [v|] eqn:Hv; [|by destruct Hset].
    destruct (Hfields k v Hv) as [->|Hfits]; [by destruct Hset|].
    unfold fits in Hfits. by destruct (existing !! k).
Qed.
End Radio.

(** The row of a first run, then a change of [isLive] with a station
    name that is [undefined]. *)
Lemma updateRadioSettings_needs_init_witness :
  let existing : Obj :=
    list_to_map [("id", JNum 1); ("stationName", JStr "GroupTherapy Radio");
                 ("isLive", JBool false); ("listenerCount", JNum 0)] in
  let settings : Obj :=
    list_to_map [("isLive", JBool true); ("stationName", JUndefined)] in
  RadioSettings.updateRadioSettings settings 500 []
  = (Thrown "Radio settings not initialized", [])
  ∧ ∃ updated,
      RadioSettings.updateRadioSettings settings 500 [existing]
      = (Returned (Some updated), [updated])
      ∧ RadioSettings.getRadioSettings [updated] = (Returned (Some updated), [updated])
      ∧ updated !! "updatedAt" = Some (JDate 500)
      ∧ (∀ k v, k ≠ "updatedAt" → settings !! k = Some v → v ≠ JUndefined →
           updated !! k = Some v)
      ∧ (∀ k, k ≠ "updatedAt" →
           settings !! k = None ∨ settings !! k = Some JUndefined →
           updated !! k = existing !! k)
      ∧ (∀ k, k ≠ "updatedAt" → (is_Some (updated !! k) ↔ is_Some (existing !! k))).
Proof.
  apply (updateRadioSettings_needs_init _ _ (JNum 1) 500).
  - vm_compute. reflexivity.
  - discriminate.
  - discriminate.
  - apply (bool_decide_unpack _). vm_compute. exact I.
Defined.

(** ** Sessions are created by accepted logins only *)

Section LoginSessions.
Import DatabaseStorage.
Variable bcrypt_compare : string → string → bool.


End LoginSessions.

(** ** The keys of [MemStorage] *)

Lemma Map_set_keys_fresh {V} k (v : V) (m : JsMap V) :
  Map_get k m = None → (Map_set k v m).*1 = m.*1 ++ [k].
Proof.
  unfold Map_get. induction m as [|[k0 v0] m IH]; simpl; [done|].
  destruct (bool_decide_reflect (k0 = k)) as [->|Hne]; simpl; [done|].
  intros H. f_equal. by apply IH.
Qed.

Lemma Map_get_None_keys {V} k (m : JsMap V) : Map_get k m = None → k ∉ m.*1.
Proof.
  unfold Map_get. induction m as [|[k0 v0] m IH]; simpl; [intros _; apply not_elem_of_nil|].
  destruct (bool_decide_reflect (k0 = k)) as [->|Hne]; simpl; [done|].
  intros H. apply not_elem_of_cons. split; [congruence|by apply IH].
Qed.

Lemma Map_set_keeps_keys {V} (key_ok : string → V → Prop) k (v : V) (m : JsMap V) :
  NoDup m.*1 → Forall (λ kv, key_ok kv.1 kv.2) m → key_ok k v →
  NoDup (Map_set k v m).*1 ∧ Forall (λ kv, key_ok kv.1 kv.2) (Map_set k v m).
Proof.
  intros Hnd Hkeys Hv. split.
  - destruct (Map_get k m) as [v0|] eqn:Hget.
    + rewrite Map_set_keys_stored; [done|by rewrite Hget].
    + rewrite Map_set_keys_fresh by done. apply NoDup_app. split; [done|].
      split; [|apply NoDup_singleton].
      intros x Hx ->%list_elem_of_singleton. by apply (Map_get_None_keys k m).
  - clear Hnd. induction Hkeys as [|[k0 v0] m Hkv Hrest IH]; simpl.
    + by repeat constructor.
    + destruct (bool_decide (k0 = k)); constructor; done.
Qed.

Section MemoryKeys.
Import MemStorage.

Lemma perform_keeps_well_keyed c now (m : t) :
  keeps_id c → well_keyed m → well_keyed (perform c now m).2.
Proof.
  intros Hc Hwk. pose proof Hwk as [[Hand Hakeys] Hcoll].
  destruct c as [username|user|username|attempt|username minutes|e|e id
                |e insert id|e id upd|e id]; try done.
  - (* createAdminUser *)
    simpl. split; [|exact Hcoll].
    apply (Map_set_keeps_keys (λ k v, au_username v = k)); done.
  - (* updateAdminLastLogin *)
    simpl. unfold updateAdminLastLogin, getAdminUserByUsername, bind, gets, modify.
    simpl. destruct (List.find _ _) as [user|] eqn:Hfind; [|done]. simpl.
    split; [|exact Hcoll].
    apply (Map_set_keeps_keys (λ k v, au_username v = k)); [done|done|].
    simpl. apply find_some in Hfind as [_ Hu]. by apply bool_decide_eq_true_1 in Hu.
  - (* create *)
    apply well_keyed_set_coll; [done|]. destruct (Hcoll e) as [Hnd Hkeys].
    apply (Map_set_keeps_keys (λ k (v : Obj), v !! "id" = Some (JStr k))); [done..|].
    apply new_record_id_createdAt.
  - (* update *)
    simpl. unfold update, bind, gets. simpl.
    destruct (Map_get id (coll e m)) as [existing|] eqn:Hget; [|done]. simpl.
    apply well_keyed_set_coll; [done|]. destruct (Hcoll e) as [Hnd Hkeys].
    apply (Map_set_keeps_keys (λ k (v : Obj), v !! "id" = Some (JStr k))); [done..|].
    unfold spread. destruct Hc as [Hnone|Hsame].
    + rewrite lookup_union_r by done.
      unfold Map_get in Hget.
      destruct (List.find _ _) as [[k0 v0]|] eqn:Hfind; [|done].
      simpl in Hget. injection Hget as ->.
      apply find_some in Hfind as [Hin Heq]. apply bool_decide_eq_true_1 in Heq.
      simpl in Heq. subst k0.
      by apply (proj1 (Forall_forall _ _) Hkeys (id, existing)), list_elem_of_In.
    + by apply lookup_union_Some_l.
  - (* delete *)
    apply well_keyed_set_coll; [done|]. by apply Map_delete_keeps_keyed.
Qed.

Lemma new_well_keyed (uuid : nat → string) (now : Z) :
  NoDup (uuid <$> [0; 1; 2]%nat) →
  NoDup (uuid <$> [3; 4; 5]%nat) →
  NoDup (uuid <$> [6; 7]%nat) →
  NoDup (uuid <$> [8; 9]%nat) →
  NoDup (uuid <$> [10; 11]%nat) →
  well_keyed (new uuid now).
Proof.
  intros Ha Hr He Hp Hs.
  assert (Hseed : ∀ items ids,
            Forall2 (λ x id, prop x "id" = JStr id) items ids → NoDup ids →
            keyed_by_id (set_each items [])).
  { intros items ids Hids Hnd. rewrite (set_each_fresh items ids); [|done..].
    simpl. split.
    - rewrite fst_zip; [done|]. apply Forall2_length in Hids. lia.
    - clear Hnd. induction Hids as [|x id items ids Hx _ IH]; simpl; [done|].
      constructor; [|done]. simpl. unfold prop in Hx.
      destruct (x !! "id") as [v|]; simpl in Hx; by subst. }
  split; [split; constructor|].
  intros e. unfold new, seedData. rewrite !coll_set_coll_mem.
  destruct e;
    repeat first [rewrite decide_True by reflexivity
                 | rewrite decide_False by discriminate];
    cbn [coll empty releases events posts contacts artists radioShows playlists videos];
    try (split; constructor).
  - by apply (Hseed _ _ (seedReleases_ids uuid now)).
  - by apply (Hseed _ _ (seedEvents_ids uuid now)).
  - by apply (Hseed _ _ (seedPosts_ids uuid now)).
  - by apply (Hseed _ _ (seedArtists_ids uuid now)).
  - by apply (Hseed _ _ (seedShows_ids uuid now)).
Qed.

(** X25. The records of a [MemStorage] stay under their own ids: a
    freshly constructed store (with distinct identifier draws per table)
    is keyed by id, and so is every store reached from it by calls of
    the contract, as long as no update patch sets [id] to another
    value. *)
Theorem memory_stays_well_keyed
    (uuid : nat → string) (now : Z) (calls : list (StorageCall * Z)) :
  NoDup (uuid <$> [0; 1; 2]%nat) →
  NoDup (uuid <$> [3; 4; 5]%nat) →
  NoDup (uuid <$> [6; 7]%nat) →
  NoDup (uuid <$> [8; 9]%nat) →
  NoDup (uuid <$> [10; 11]%nat) →
  Forall (λ c, keeps_id c.1) calls →
  well_keyed (perform_all calls (new uuid now)).2.
Proof.
  intros Ha Hr He Hp Hs Hcalls.
  pose proof (new_well_keyed uuid now Ha Hr He Hp Hs) as Hwk.
  revert Hwk. generalize (new uuid now).
  induction Hcalls as [|[c t0] calls Hc _ IH]; intros m Hwk; [done|].
  simpl. pose proof (perform_keeps_well_keyed c t0 m Hc Hwk) as Hstep.
  destruct (perform c t0 m) as [a m']. simpl in Hstep.
  specialize (IH m' Hstep).
  by destruct (perform_all calls m') as [answers m''].
Qed.
End MemoryKeys.

Lemma memory_stays_well_keyed_witness :
  well_keyed
    (perform_all
       [ (Create Artist {[ "name" := JStr "Nova" ]} "a-9", 5);
         (Update Artist "a-9" {[ "bio" := JStr "New" ]}, 6);
         (Delete Release "uuid-3", 7) ]
       (MemStorage.new demo_uuid 0)).2.
Proof.
  apply (memory_stays_well_keyed demo_uuid 0
           [ (Create Artist {[ "name" := JStr "Nova" ]} "a-9", 5);
             (Update Artist "a-9" {[ "bio" := JStr "New" ]}, 6);
             (Delete Release "uuid-3", 7) ]);
    try (apply (bool_decide_unpack _); vm_compute; exact I).
  repeat constructor.
Defined.
